(** * Forks life simulation: the personality engine and the event system

  A shallow embedding of [PersonalityEngine] and [EventSystem], the two
  engine objects of the site's JavaScript, and the properties of them
  that the specification states.

  Conventions of the embedding.
  - The engines are modelled on exact rationals ([Q]): comparisons,
    [Math.max]/[Math.min] and their arithmetic are without rounding, and
    without [NaN] or infinities; this is where thresholds, clamps and
    bounds are proved.  The two methods whose result can depend on
    rounding or overflow, [calculateChoiceProbability] and
    [deriveEnneagram], are modelled a second time on binary64 floats, the
    number type of JavaScript (module [Double]), and what the
    specification says of their values is proved there.  Ages are
    integers ([Z]): they start at 18 and only integers are added.
  - An object literal with a fixed shape is a record; an object used as a
    dictionary whose enumeration order the code relies on ([for .. in])
    is the list of its own properties in enumeration order; the tag
    counters are a [gmap], and where the code enumerates them the
    enumeration is an argument.
  - The engines are singletons mutated in place: every method takes the
    engine value(s) it reads and returns the one(s) it leaves behind.
  - A method that can raise a [TypeError] returns a [completion].
  - [Math.random()] is an argument of the method that draws it. *)

From Stdlib Require Import ZArith QArith Qabs Qround Lqa Lia Ascii String Sorted Floats.
From stdpp Require Import base option list strings gmap.

Set Warnings "-inexact-float".

Open Scope string_scope.
Open Scope Q_scope.

(** ** JavaScript arithmetic used by the engines *)

Module Math.

(** [Math.max(a, b)] *)
Definition max (a b : Q) : Q := if Qle_bool a b then b else a.

(** [Math.min(a, b)] *)
Definition min (a b : Q) : Q := if Qle_bool a b then a else b.

(** [Math.abs(a)] *)
Definition abs (a : Q) : Q := Qabs a.

(** [Math.floor(a)] *)
Definition floor (a : Q) : Z := Qfloor a.

End Math.

(** [a >= b], [a > b], [a < b] and [a !== 0] on numbers *)
Definition js_ge (a b : Q) : bool := Qle_bool b a.
Definition js_gt (a b : Q) : bool := negb (Qle_bool a b).
Definition js_lt (a b : Q) : bool := negb (Qle_bool b a).
Definition js_neq0 (a : Q) : bool := negb (Qeq_bool a 0).

(** [a <= b] on numbers *)
Definition js_le (a b : Q) : bool := Qle_bool a b.

(** [s.includes(search)]: [search] occurs in [s] at some position. *)
Fixpoint includes (s search : string) : bool :=
  if String.prefix search s then true
  else match s with
       | EmptyString => false
       | String _ s' => includes s' search
       end.

(** [a || b] where [a] is a string or [undefined]: the empty string and
    [undefined] are falsy. *)
Definition or_else (a : option string) (b : string) : string :=
  match a with
  | Some EmptyString => b
  | Some s => s
  | None => b
  end.

(** [array[i]] for a number [i] that is an integer; [None] is [undefined]. *)
Definition Array_get {A} (l : list A) (i : Z) : option A :=
  if (i <? 0)%Z then None else l !! Z.to_nat i.

(** ** The personality engine *)

(** The five dimensions: the own property names of [PersonalityEngine.ocean]. *)
Inductive Dim : Set := DimO | DimC | DimE | DimA | DimN.

#[export] Instance Dim_eq_dec : EqDecision Dim.
Proof. solve_decision. Defined.

Definition all_dims : list Dim := [DimO; DimC; DimE; DimA; DimN].

Definition dim_key (d : Dim) : string :=
  match d with
  | DimO => "O" | DimC => "C" | DimE => "E" | DimA => "A" | DimN => "N"
  end.

(** [this.ocean.hasOwnProperty(trait)]: the dimension a property name
    denotes, if it is one of the five. *)
Definition ocean_hasOwnProperty (trait : string) : option Dim :=
  if String.eqb trait "O" then Some DimO
  else if String.eqb trait "C" then Some DimC
  else if String.eqb trait "E" then Some DimE
  else if String.eqb trait "A" then Some DimA
  else if String.eqb trait "N" then Some DimN
  else None.

(** An object [{ O, C, E, A, N }] of numbers ([ocean], [confidence]). *)
Record Traits : Set := mkTraits { tO : Q; tC : Q; tE : Q; tA : Q; tN : Q }.

(** [obj[d]] *)
Definition tget (d : Dim) (t : Traits) : Q :=
  match d with
  | DimO => tO t | DimC => tC t | DimE => tE t | DimA => tA t | DimN => tN t
  end.

(** [obj[d] = v] *)
Definition tset (d : Dim) (v : Q) (t : Traits) : Traits :=
  match d with
  | DimO => mkTraits v (tC t) (tE t) (tA t) (tN t)
  | DimC => mkTraits (tO t) v (tE t) (tA t) (tN t)
  | DimE => mkTraits (tO t) (tC t) v (tA t) (tN t)
  | DimA => mkTraits (tO t) (tC t) (tE t) v (tN t)
  | DimN => mkTraits (tO t) (tC t) (tE t) (tA t) v
  end.

(** An object used as a dictionary, as [for (k in obj)] enumerates it. *)
Definition jsobj (V : Type) : Type := list (string * V).

(** A JavaScript object has each property name once. *)
Definition distinct_keys {V} (o : jsobj V) : Prop := NoDup (map fst o).

(** [obj[k]] for a dictionary; [None] is [undefined]. *)
Fixpoint prop_get {V} (k : string) (o : jsobj V) : option V :=
  match o with
  | [] => None
  | (k', v) :: o' => if String.eqb k k' then Some v else prop_get k o'
  end.

(** A choice of a scenario (or of an assessment question): the optional
    members are [None] when the property is absent. *)
Record Choice : Type := mkChoice {
  choice_id : string;
  choice_title : string;
  choice_description : string;
  choice_outcome : string;
  ocean_weights : option (jsobj Q);
  stress_delta : option Q;
  trajectory_tags : option (list string)
}.

Record PersonalityEngine : Type := mkPersonality {
  ocean : Traits;
  confidence : Traits;
  stress : Q;
  trajectoryTags : gmap string nat
}.

Module Personality.

(** The object literal [PersonalityEngine] as the script creates it. *)
Definition initial : PersonalityEngine :=
  {| ocean := mkTraits 50 50 50 50 50;
     confidence := mkTraits 30 30 30 30 30;
     stress := 30;
     trajectoryTags := ∅ |}.

Definition reset (_ : PersonalityEngine) : PersonalityEngine :=
  {| ocean := mkTraits 50 50 50 50 50;
     confidence := mkTraits 30 30 30 30 30;
     stress := 30;
     trajectoryTags := ∅ |}.

(** The body of the loop of [applyWeights] for one property of [weights]. *)
Definition applyWeight (pe : PersonalityEngine) (kv : string * Q) : PersonalityEngine :=
  match ocean_hasOwnProperty (fst kv) with
  | Some d =>
      {| ocean := tset d (Math.max 0 (Math.min 100 (tget d (ocean pe) + snd kv))) (ocean pe);
         confidence := tset d (Math.max 5 (tget d (confidence pe) - 2)) (confidence pe);
         stress := stress pe;
         trajectoryTags := trajectoryTags pe |}
  | None => pe
  end.

Definition applyWeights (weights : jsobj Q) (pe : PersonalityEngine) : PersonalityEngine :=
  fold_left applyWeight weights pe.

Definition applyStress (delta : Q) (pe : PersonalityEngine) : PersonalityEngine :=
  {| ocean := ocean pe;
     confidence := confidence pe;
     stress := Math.max 0 (Math.min 100 (stress pe + delta));
     trajectoryTags := trajectoryTags pe |}.

(** [this.trajectoryTags[tag] = (this.trajectoryTags[tag] || 0) + 1] for a
    tag that is not the name of a member of [Object.prototype]: a tag
    without a counter reads as [undefined] and starts at 0.  (For a name
    such as "constructor" the read yields the inherited member and no
    number is stored; the counters of the model hold numbers only.) *)
Definition addTrajectoryTag (tags : gmap string nat) (tag : string) : gmap string nat :=
  <[tag := S (default 0%nat (tags !! tag))]> tags.

Definition addTrajectoryTags (tags : list string) (pe : PersonalityEngine) : PersonalityEngine :=
  {| ocean := ocean pe;
     confidence := confidence pe;
     stress := stress pe;
     trajectoryTags := fold_left addTrajectoryTag tags (trajectoryTags pe) |}.

Definition deriveMBTI (pe : PersonalityEngine) : string :=
  let E_I := if js_ge (tE (ocean pe)) 50 then "E" else "I" in
  let S_N := if js_ge (tO (ocean pe)) 50 then "N" else "S" in
  let T_F := if js_ge (tA (ocean pe)) 50 then "F" else "T" in
  let J_P := if js_ge (tC (ocean pe)) 50 then "J" else "P" in
  E_I ++ S_N ++ T_F ++ J_P.

(** [Array.prototype.sort(compare)] is a stable sort: of two elements that
    [compare] does not order, the one that stood first stays first.  The
    result of a stable sort under a consistent comparator is unique, so it
    is computed here by insertion, last element first; [x] goes behind [y]
    only when [compare x y > 0]. *)
Fixpoint sort_insert {A} (compare : A -> A -> Q) (x : A) (l : list A) : list A :=
  match l with
  | [] => [x]
  | y :: l' => if js_gt (compare x y) 0 then y :: sort_insert compare x l' else x :: l
  end.

Definition Array_sort {A} (compare : A -> A -> Q) (l : list A) : list A :=
  fold_right (sort_insert compare) [] l.

(** [Object.entries(scores)] for the object literal of [deriveEnneagram].
    Its property names are the numerals 1 to 9, enumerated in ascending
    order and read back with [parseInt]; they are kept as the integers they
    denote.  The scores are exact here; which of two nearly equal scores
    is the higher one in the program is settled on doubles ([Double]). *)
Definition enneagram_scores (pe : PersonalityEngine) : list (Z * Q) :=
  let O := tO (ocean pe) in
  let C := tC (ocean pe) in
  let E := tE (ocean pe) in
  let A := tA (ocean pe) in
  let N := tN (ocean pe) in
  [ (1%Z, C * 1.5 + (100 - A) * 0.5 - O * 0.3);
    (2%Z, A * 1.5 + E * 0.5 + N * 0.3);
    (3%Z, C * 1.0 + E * 1.0 + (100 - A) * 0.5);
    (4%Z, O * 1.0 + N * 1.0 + (100 - E) * 0.5);
    (5%Z, O * 1.0 + (100 - E) * 1.0 + (100 - A) * 0.5);
    (6%Z, N * 1.0 + A * 0.5 + C * 0.5);
    (7%Z, O * 1.0 + E * 1.0 + (100 - N) * 0.5);
    (8%Z, E * 1.0 + (100 - A) * 1.0 + (100 - N) * 0.5);
    (9%Z, A * 1.0 + (100 - N) * 1.0 + (100 - C) * 0.3) ].

Definition enneagram_descriptions : list (Z * string) :=
  [ (1%Z, "Type 1: The Perfectionist - Principled, purposeful, self-controlled");
    (2%Z, "Type 2: The Helper - Generous, demonstrative, people-pleasing");
    (3%Z, "Type 3: The Achiever - Adaptable, excelling, driven");
    (4%Z, "Type 4: The Individualist - Expressive, dramatic, self-absorbed");
    (5%Z, "Type 5: The Investigator - Perceptive, innovative, isolated");
    (6%Z, "Type 6: The Loyalist - Engaging, responsible, anxious");
    (7%Z, "Type 7: The Enthusiast - Spontaneous, versatile, scattered");
    (8%Z, "Type 8: The Challenger - Self-confident, decisive, confrontational");
    (9%Z, "Type 9: The Peacemaker - Receptive, reassuring, complacent") ].

(** The comparator [(a, b) => b[1] - a[1]]: descending by score. *)
Definition by_score_descending (a b : Z * Q) : Q := snd b - snd a.

(** The value [{ type, description }] that [deriveEnneagram] returns. *)
Record Enneagram : Type := mkEnneagram {
  enneagram_type : Z;
  enneagram_description : option string
}.

(** [sorted[0][0]] raises a [TypeError] on an empty array: [None]. *)
Definition deriveEnneagram (pe : PersonalityEngine) : option Enneagram :=
  match Array_sort by_score_descending (enneagram_scores pe) with
  | (type, _) :: _ =>
      Some {| enneagram_type := type;
              enneagram_description := snd <$> List.find (fun d => Z.eqb (fst d) type) enneagram_descriptions |}
  | [] => None
  end.

(** The body of the loop of [calculateChoiceProbability] for one property
    of [choice.ocean_weights], on exact rationals: it agrees with the
    program up to rounding as long as no term overflows ([Double] has the
    method on doubles). *)
Definition alignment_step (pe : PersonalityEngine) (alignment : Q) (kv : string * Q) : Q :=
  match ocean_hasOwnProperty (fst kv) with
  | Some d =>
      let weight := snd kv in
      let traitValue := tget d (ocean pe) in
      if js_gt weight 0
      then alignment + (traitValue - 50) * (weight / 20)
      else alignment + (50 - traitValue) * (Math.abs weight / 20)
  | None => alignment
  end.

(** [choice.stress_delta < 0] and [> 10] are false of [undefined]. *)
Definition stress_adjust (pe : PersonalityEngine) (sd : option Q) (alignment : Q) : Q :=
  match sd with
  | Some d =>
      if js_lt d 0 then alignment + stress pe * 0.2
      else if js_gt d 10 then alignment - stress pe * 0.15
      else alignment
  | None => alignment
  end.

Definition calculateChoiceProbability (choice : Choice) (pe : PersonalityEngine) : Q :=
  match ocean_weights choice with
  | None => 0.5
  | Some weights =>
      let alignment := fold_left (alignment_step pe) weights 50 in
      let alignment := stress_adjust pe (stress_delta choice) alignment in
      Math.max 10 (Math.min 90 alignment)
  end.

(** [{ ...obj }] for an object of the five dimensions: a new object with
    the same properties. *)
Definition spread (t : Traits) : Traits :=
  mkTraits (tO t) (tC t) (tE t) (tA t) (tN t).

(** The snapshot [getState] returns and [restoreState] reads. *)
Record State : Type := mkState {
  state_ocean : Traits;
  state_confidence : Traits;
  state_stress : Q;
  state_trajectoryTags : gmap string nat
}.

Definition getState (pe : PersonalityEngine) : State :=
  {| state_ocean := spread (ocean pe);
     state_confidence := spread (confidence pe);
     state_stress := stress pe;
     state_trajectoryTags := trajectoryTags pe |}.

Definition restoreState (state : State) (_ : PersonalityEngine) : PersonalityEngine :=
  {| ocean := spread (state_ocean state);
     confidence := spread (state_confidence state);
     stress := state_stress state;
     trajectoryTags := state_trajectoryTags state |}.

(** The comparator [(a, b) => b[1] - a[1]] on the entries of the tag counts. *)
Definition by_count_descending (a b : string * nat) : Q :=
  inject_Z (Z.of_nat (snd b)) - inject_Z (Z.of_nat (snd a)).

(** [Object_entries] stands for [Object.entries] on the tag counts: the
    counters are kept as a map, which does not record the order in which
    JavaScript enumerates them, so the enumeration is an argument. *)
Definition getDominantTrajectories
    (Object_entries : gmap string nat -> list (string * nat))
    (count : nat) (pe : PersonalityEngine) : list string :=
  map fst
    (take count
       (Array_sort by_count_descending (Object_entries (trajectoryTags pe)))).

Definition mbti_descriptions : jsobj string :=
  [ ("INTJ", "The Architect - Strategic and independent");
    ("INTP", "The Logician - Analytical and inventive");
    ("ENTJ", "The Commander - Bold and strategic");
    ("ENTP", "The Debater - Clever and curious");
    ("INFJ", "The Advocate - Insightful and principled");
    ("INFP", "The Mediator - Empathetic and idealistic");
    ("ENFJ", "The Protagonist - Charismatic and inspiring");
    ("ENFP", "The Campaigner - Enthusiastic and creative");
    ("ISTJ", "The Logistician - Practical and reliable");
    ("ISFJ", "The Defender - Dedicated and warm");
    ("ESTJ", "The Executive - Organized and logical");
    ("ESFJ", "The Consul - Caring and social");
    ("ISTP", "The Virtuoso - Observant and practical");
    ("ISFP", "The Adventurer - Flexible and charming");
    ("ESTP", "The Entrepreneur - Smart and perceptive");
    ("ESFP", "The Entertainer - Spontaneous and energetic") ].

(** The value [{ type, description }] that [getMBTIDescription] returns. *)
Record MBTI : Type := mkMBTI {
  mbti_type : string;
  mbti_description : string
}.

Definition getMBTIDescription (pe : PersonalityEngine) : MBTI :=
  let type := deriveMBTI pe in
  {| mbti_type := type;
     mbti_description := or_else (prop_get type mbti_descriptions) "Unique blend" |}.

(** [this.ocean[trait]] for a name that is not a dimension is [undefined]
    or a member inherited from [Object.prototype]; compared with a number
    it is [NaN], so every [<] is false and the last [return] is reached. *)
Definition getTraitLevel (trait : string) (pe : PersonalityEngine) : string :=
  match ocean_hasOwnProperty trait with
  | Some d =>
      let value := tget d (ocean pe) in
      if js_lt value 25 then "Very Low"
      else if js_lt value 40 then "Low"
      else if js_lt value 60 then "Moderate"
      else if js_lt value 75 then "High"
      else "Very High"
  | None => "Very High"
  end.

(** [this.traitNames[k]] for the name of a dimension. *)
Definition traitNames (d : Dim) : string :=
  match d with
  | DimO => "Openness"
  | DimC => "Conscientiousness"
  | DimE => "Extraversion"
  | DimA => "Agreeableness"
  | DimN => "Neuroticism"
  end.

(** [Object.entries(this.ocean)] *)
Definition ocean_entries (t : Traits) : list (Dim * Q) :=
  map (fun d => (d, tget d t)) all_dims.

(** The value that [generateSummary] returns. *)
Record Summary : Type := mkSummary {
  summary_mbti : MBTI;
  summary_enneagram : Enneagram;
  highTraits : list string;
  lowTraits : list string;
  stressLevel : Q;
  trajectories : list string
}.

(** [None] when [deriveEnneagram] raises. *)
Definition generateSummary
    (Object_entries : gmap string nat -> list (string * nat))
    (pe : PersonalityEngine) : option Summary :=
  let mbti := getMBTIDescription pe in
  match deriveEnneagram pe with
  | Some enneagram =>
      Some {| summary_mbti := mbti;
              summary_enneagram := enneagram;
              highTraits :=
                map (fun kv => traitNames (fst kv))
                  (List.filter (fun kv => js_ge (snd kv) 65) (ocean_entries (ocean pe)));
              lowTraits :=
                map (fun kv => traitNames (fst kv))
                  (List.filter (fun kv => js_le (snd kv) 35) (ocean_entries (ocean pe)));
              stressLevel := stress pe;
              trajectories := getDominantTrajectories Object_entries 5 pe |}
  | None => None
  end.

End Personality.

(** ** The event system *)

(** What a method leaves behind: a value, or a raised [TypeError]. *)
Inductive completion (A : Type) : Type :=
| Normal (a : A)
| TypeError (message : string).
Arguments Normal {A} a.
Arguments TypeError {A} message.

#[export] Instance completion_ret : MRet completion := fun A a => Normal a.

#[export] Instance completion_bind : MBind completion := fun A B k c =>
  match c with
  | Normal a => k a
  | TypeError m => TypeError m
  end.

(** A JSON value that the engine stores and never looks into. *)
#[warnings="-register-all"]
Inductive json : Type :=
| JNull
| JBool (b : bool)
| JNumber (q : Q)
| JString (s : string)
| JArray (l : list json)
| JObject (o : list (string * json)).

(** An entry of the catalogue.  [age_range] and [context_tags] are [None]
    when the entry has no such property (destructuring the one and calling
    [forEach] on the other raise a [TypeError]). *)
Record Scenario : Type := mkScenario {
  scenario_id : string;
  scenario_title : string;
  scenario_description : string;
  life_stage : string;
  age_range : option (Z * Z);
  context_tags : option (list string);
  choices : list Choice;
  reflection_prompts : option (list string)
}.

(** The record [processChoice] builds and appends to the history. *)
Record Event : Type := mkEvent {
  scenarioId : string;
  title : string;
  choiceId : string;
  choiceTitle : string;
  age : Z;
  stage : string;
  outcome : string;
  oceanBefore : Traits;
  stressBefore : Q;
  oceanAfter : Traits;
  stressAfter : Q;
  oceanChanges : jsobj Q
}.

(** [scenarios] is [None] when the property holds [undefined] or any other
    value that is not an array; the two auxiliary tables are [None] until a
    catalogue that has them is loaded. *)
Record EventSystem : Type := mkEventSystem {
  scenarios : option (list Scenario);
  currentAge : Z;
  currentStage : string;
  eventHistory : list Event;
  availableScenarios : list Scenario;
  trajectoryDescriptions : option json;
  globalModifiers : option json
}.

(** The members that [loadScenarios] reads of the value [response.json()]
    yields; a member the value does not have reads as [undefined]: [None]. *)
Record Catalogue : Type := mkCatalogue {
  data_scenarios : option (list Scenario);
  data_trajectory_descriptions : option json;
  data_global_modifiers : option json
}.

(** How fetching and parsing [data/scenarios.json] can end: [fetch]
    rejects, [response.json()] rejects, or a value is parsed; [Parsed None]
    is the value [null], of which reading a member raises a [TypeError]. *)
Inductive Fetched : Type :=
| FetchRejected
| JsonRejected
| Parsed (data : option Catalogue).

Module Events.

(** The object literal [EventSystem] as the script creates it. *)
Definition initial : EventSystem :=
  {| scenarios := Some [];
     currentAge := 18;
     currentStage := "early";
     eventHistory := [];
     availableScenarios := [];
     trajectoryDescriptions := None;
     globalModifiers := None |}.

Definition set_availableScenarios (l : list Scenario) (es : EventSystem) : EventSystem :=
  {| scenarios := scenarios es;
     currentAge := currentAge es;
     currentStage := currentStage es;
     eventHistory := eventHistory es;
     availableScenarios := l;
     trajectoryDescriptions := trajectoryDescriptions es;
     globalModifiers := globalModifiers es |}.

(** [array.filter(callback)] with a callback that may raise. *)
Fixpoint Array_filter {A} (callback : A -> completion bool) (l : list A) : completion (list A) :=
  match l with
  | [] => Normal []
  | x :: l' =>
      keep ← callback x;
      rest ← Array_filter callback l';
      Normal (if keep : bool then x :: rest else rest)
  end.

(** The callback of [refreshAvailableScenarios]. *)
Definition available (es : EventSystem) (usedIds : gset string) (scenario : Scenario) : completion bool :=
  if bool_decide (scenario_id scenario ∈ usedIds) then Normal false
  else if negb (String.eqb (life_stage scenario) "any")
          && negb (String.eqb (life_stage scenario) (currentStage es))
  then Normal false
  else match age_range scenario with
       | None => TypeError "scenario.age_range is not iterable"
       | Some (minAge, maxAge) =>
           if (currentAge es <? minAge)%Z || (currentAge es >? maxAge)%Z
           then Normal false
           else Normal true
       end.

Definition refreshAvailableScenarios (es : EventSystem) : completion EventSystem :=
  let usedIds : gset string := list_to_set (map scenarioId (eventHistory es)) in
  match scenarios es with
  | None => TypeError "this.scenarios.filter is not a function"
  | Some l =>
      filtered ← Array_filter (available es usedIds) l;
      Normal (set_availableScenarios filtered es)
  end.

(** [loadScenarios] returns its boolean and leaves the engine as it stood
    when the [try] block ended or raised. *)
Definition loadScenarios (response : Fetched) (es : EventSystem) : bool * EventSystem :=
  match response with
  | FetchRejected => (false, es)
  | JsonRejected => (false, es)
  | Parsed None => (false, es)
  | Parsed (Some data) =>
      let es1 :=
        {| scenarios := data_scenarios data;
           currentAge := currentAge es;
           currentStage := currentStage es;
           eventHistory := eventHistory es;
           availableScenarios := availableScenarios es;
           trajectoryDescriptions := data_trajectory_descriptions data;
           globalModifiers := data_global_modifiers data |} in
      match refreshAvailableScenarios es1 with
      | Normal es2 => (true, es2)
      | TypeError _ => (false, es1)
      end
  end.

Definition reset (es : EventSystem) : completion EventSystem :=
  refreshAvailableScenarios
    {| scenarios := scenarios es;
       currentAge := 18;
       currentStage := "early";
       eventHistory := [];
       availableScenarios := availableScenarios es;
       trajectoryDescriptions := trajectoryDescriptions es;
       globalModifiers := globalModifiers es |}.

Definition updateStage (es : EventSystem) : EventSystem :=
  {| scenarios := scenarios es;
     currentAge := currentAge es;
     currentStage :=
       if (currentAge es <=? 25)%Z then "early"
       else if (currentAge es <=? 50)%Z then "mid"
       else "later";
     eventHistory := eventHistory es;
     availableScenarios := availableScenarios es;
     trajectoryDescriptions := trajectoryDescriptions es;
     globalModifiers := globalModifiers es |}.

(** [random] is the value [Math.random()] returns in this call.  The stage
    is looked up in the object literal [{ early: 2, mid: 3, later: 4 }]; a
    stage that is none of its keys reads as [undefined] and gives the base
    2, provided it is not the name of a member of [Object.prototype] (for
    such a name the read yields the inherited member and the sum is not a
    number; the ages of the model are numbers only). *)
Definition calculateAgeAdvance (random : Q) (es : EventSystem) : Z :=
  let baseAdvance :=
    default 2%Z (prop_get (currentStage es) [("early", 2%Z); ("mid", 3%Z); ("later", 4%Z)]) in
  let variation := Math.floor (random * 2) in
  (baseAdvance + variation)%Z.

(** The loop of [processChoice] that fills [event.oceanChanges]. *)
Definition ocean_changes (before after : Traits) : jsobj Q :=
  fold_left
    (fun changes trait =>
       let change := tget trait after - tget trait before in
       if js_neq0 change then (changes ++ [(dim_key trait, change)])%list else changes)
    all_dims [].

Definition processChoice (random : Q) (scenario : Scenario) (choice : Choice)
    (pe : PersonalityEngine) (es : EventSystem) : Event * PersonalityEngine * EventSystem :=
  let oceanBefore := Personality.spread (ocean pe) in
  let stressBefore := stress pe in
  let pe1 :=
    match ocean_weights choice with
    | Some weights => Personality.applyWeights weights pe
    | None => pe
    end in
  let pe2 :=
    match stress_delta choice with
    | Some delta => Personality.applyStress delta pe1
    | None => pe1
    end in
  let pe3 :=
    match trajectory_tags choice with
    | Some tags => Personality.addTrajectoryTags tags pe2
    | None => pe2
    end in
  let oceanAfter := Personality.spread (ocean pe3) in
  let event :=
    {| scenarioId := scenario_id scenario;
       title := scenario_title scenario;
       choiceId := choice_id choice;
       choiceTitle := choice_title choice;
       age := currentAge es;
       stage := currentStage es;
       outcome := choice_outcome choice;
       oceanBefore := oceanBefore;
       stressBefore := stressBefore;
       oceanAfter := oceanAfter;
       stressAfter := stress pe3;
       oceanChanges := ocean_changes oceanBefore oceanAfter |} in
  let es1 :=
    {| scenarios := scenarios es;
       currentAge := currentAge es;
       currentStage := currentStage es;
       eventHistory := (eventHistory es ++ [event])%list;
       availableScenarios := availableScenarios es;
       trajectoryDescriptions := trajectoryDescriptions es;
       globalModifiers := globalModifiers es |} in
  let ageAdvance := calculateAgeAdvance random es1 in
  let es2 :=
    {| scenarios := scenarios es1;
       currentAge := (currentAge es1 + ageAdvance)%Z;
       currentStage := currentStage es1;
       eventHistory := eventHistory es1;
       availableScenarios := availableScenarios es1;
       trajectoryDescriptions := trajectoryDescriptions es1;
       globalModifiers := globalModifiers es1 |} in
  (event, pe3, updateStage es2).

Definition getChoiceAlignment (choice : Choice) (pe : PersonalityEngine) : string :=
  let probability := Personality.calculateChoiceProbability choice pe in
  if js_gt probability 70 then "strongly aligned"
  else if js_gt probability 55 then "somewhat aligned"
  else if js_lt probability 30 then "against your nature"
  else if js_lt probability 45 then "a stretch for you"
  else "neutral".

Definition shouldEndSimulation (es : EventSystem) : completion (bool * EventSystem) :=
  if (currentAge es >=? 75)%Z then Normal (true, es)
  else
    es1 ← refreshAvailableScenarios es;
    if (length (availableScenarios es1) =? 0)%nat && (5 <=? length (eventHistory es1))%nat
    then Normal (true, es1)
    else Normal (false, es1).

(** The snapshot [getState] returns and [restoreState] reads. *)
Record State : Type := mkState {
  state_currentAge : Z;
  state_currentStage : string;
  state_eventHistory : list Event
}.

Definition getState (es : EventSystem) : State :=
  {| state_currentAge := currentAge es;
     state_currentStage := currentStage es;
     state_eventHistory := eventHistory es |}.

Definition restoreState (state : State) (es : EventSystem) : completion EventSystem :=
  refreshAvailableScenarios
    {| scenarios := scenarios es;
       currentAge := state_currentAge state;
       currentStage := state_currentStage state;
       eventHistory := state_eventHistory state;
       availableScenarios := availableScenarios es;
       trajectoryDescriptions := trajectoryDescriptions es;
       globalModifiers := globalModifiers es |}.

(** The table [stages]: the age band and the label of each life stage. *)
Record StageBand : Type := mkStageBand {
  stage_min : Z;
  stage_max : Z;
  stage_label : string
}.

Definition stages : jsobj StageBand :=
  [ ("early", mkStageBand 15 25 "Early Life");
    ("mid", mkStageBand 26 50 "Mid Life");
    ("later", mkStageBand 51 80 "Later Life") ].

(** [array.map(callback)] with a callback that may raise; the callback
    gets the index of the element, counted from [n]. *)
Fixpoint Array_map {A B} (callback : nat -> A -> completion B) (n : nat) (l : list A)
    : completion (list B) :=
  match l with
  | [] => Normal []
  | x :: l' =>
      y ← callback n x;
      rest ← Array_map callback (S n) l';
      Normal (y :: rest)
  end.

(** The weight [selectNextScenario] gives a scenario; [jitter] is the value
    [Math.random()] returns for it.  [scenario.context_tags.forEach] raises
    when the scenario has no [context_tags]. *)
Definition scenario_weight (dominantTags : list string) (jitter : Q)
    (scenario : Scenario) : completion Q :=
  match context_tags scenario with
  | None => TypeError "scenario.context_tags is undefined"
  | Some tags =>
      let weight :=
        fold_left
          (fun weight tag =>
             if existsb (fun t => includes tag t || includes t tag) dominantTags
             then weight + 0.5
             else weight)
          tags 1 in
      Normal (weight + jitter * 0.5)
  end.

(** [random n] is the value the [n]-th call of [Math.random()] returns
    during this call, counted from 0: one call per available scenario, in
    order, then one for the pick.  The answer [None] is [null]. *)
Definition selectNextScenario
    (Object_entries : gmap string nat -> list (string * nat))
    (random : nat -> Q) (pe : PersonalityEngine) (es : EventSystem)
    : completion (option Scenario * EventSystem) :=
  es1 ← refreshAvailableScenarios es;
  if (length (availableScenarios es1) =? 0)%nat then Normal (None, es1)
  else
    let dominantTags := Personality.getDominantTrajectories Object_entries 3 pe in
    weighted ←
      Array_map
        (fun n scenario =>
           weight ← scenario_weight dominantTags (random n) scenario;
           Normal (scenario, weight))
        0%nat (availableScenarios es1);
    let sorted := Personality.Array_sort (fun a b => snd b - snd a) weighted in
    let topCandidates := take (Nat.min 3 (length sorted)) sorted in
    let index :=
      Math.floor (random (length (availableScenarios es1))
                  * inject_Z (Z.of_nat (length topCandidates))) in
    match Array_get topCandidates index with
    | Some selected => Normal (Some (fst selected), es1)
    | None => TypeError "selected is undefined"
    end.

(** What [getReflectionPrompt] returns: [null], [undefined] (an index
    outside the array) or a prompt. *)
Inductive Prompt : Type :=
| PromptNull
| PromptUndefined
| PromptText (text : string).

Definition getReflectionPrompt (random : Q) (scenario : Scenario) : Prompt :=
  match reflection_prompts scenario with
  | None => PromptNull
  | Some prompts =>
      if (length prompts =? 0)%nat then PromptNull
      else
        let idx := Math.floor (random * inject_Z (Z.of_nat (length prompts))) in
        match Array_get prompts idx with
        | Some text => PromptText text
        | None => PromptUndefined
        end
  end.

(** An entry of the list that [getTimeline] returns. *)
Record TimelineEntry : Type := mkTimelineEntry {
  timeline_age : Z;
  timeline_stage : string;
  timeline_title : string;
  timeline_choice : string;
  timeline_outcome : string
}.

Definition getTimeline (es : EventSystem) : list TimelineEntry :=
  map (fun event =>
         {| timeline_age := age event;
            timeline_stage := stage event;
            timeline_title := title event;
            timeline_choice := choiceTitle event;
            timeline_outcome := outcome event |})
    (eventHistory es).

End Events.

(** ** The two methods whose result depends on rounding and overflow

    [calculateChoiceProbability] multiplies and adds numbers of any
    magnitude, and [deriveEnneagram] compares sums that can differ in the
    last bit only.  For these two methods a number is what it is in
    JavaScript, an IEEE 754 binary64 value: every operation rounds to
    nearest, overflows to an infinity, and [Infinity - Infinity] is [NaN].
    The module reads of the engine and of a choice only the members that
    the two methods read. *)

Module Double.

Local Open Scope float_scope.

Module Math.

(** [Math.max(a, b)]: [NaN] if either argument is [NaN]; of two zeros the
    positive one. *)
Definition max (a b : float) : float :=
  if is_nan a || is_nan b then nan
  else if a <? b then b
  else if b <? a then a
  else if get_sign a then b else a.

(** [Math.min(a, b)]: [NaN] if either argument is [NaN]; of two zeros the
    negative one. *)
Definition min (a b : float) : float :=
  if is_nan a || is_nan b then nan
  else if a <? b then a
  else if b <? a then b
  else if get_sign a then a else b.

(** [Math.abs(a)] *)
Definition abs (a : float) : float := PrimFloat.abs a.

End Math.

(** The object [ocean]. *)
Record Traits : Set := mkTraits { tO : float; tC : float; tE : float; tA : float; tN : float }.

(** [obj[d]] *)
Definition tget (d : Dim) (t : Traits) : float :=
  match d with
  | DimO => tO t | DimC => tC t | DimE => tE t | DimA => tA t | DimN => tN t
  end.

(** The members of a choice that [calculateChoiceProbability] reads. *)
Record Choice : Type := mkChoice {
  ocean_weights : option (jsobj float);
  stress_delta : option float
}.

(** The members of the engine that the two methods read. *)
Record PersonalityEngine : Type := mkPersonality {
  ocean : Traits;
  stress : float
}.

(** The body of the loop of [calculateChoiceProbability] for one property
    of [choice.ocean_weights]. *)
Definition alignment_step (pe : PersonalityEngine) (alignment : float) (kv : string * float)
    : float :=
  match ocean_hasOwnProperty (fst kv) with
  | Some d =>
      let weight := snd kv in
      let traitValue := tget d (ocean pe) in
      if 0 <? weight
      then alignment + (traitValue - 50) * (weight / 20)
      else alignment + (50 - traitValue) * (Math.abs weight / 20)
  | None => alignment
  end.

(** [choice.stress_delta < 0] and [> 10] are false of [undefined]. *)
Definition stress_adjust (pe : PersonalityEngine) (sd : option float) (alignment : float)
    : float :=
  match sd with
  | Some d =>
      if d <? 0 then alignment + stress pe * 0.2
      else if 10 <? d then alignment - stress pe * 0.15
      else alignment
  | None => alignment
  end.

Definition calculateChoiceProbability (choice : Choice) (pe : PersonalityEngine) : float :=
  match ocean_weights choice with
  | None => 0.5
  | Some weights =>
      let alignment := fold_left (alignment_step pe) weights 50 in
      let alignment := stress_adjust pe (stress_delta choice) alignment in
      Math.max 10 (Math.min 90 alignment)
  end.

(** [Array.prototype.sort(compare)] is a stable sort.  Its result is
    specified when the comparator is consistent on the elements, and is
    then the one computed here by insertion, last element first; [x] goes
    behind [y] only when [compare x y > 0] (a comparator result that is
    [NaN] counts as 0). *)
Fixpoint sort_insert {A} (compare : A -> A -> float) (x : A) (l : list A) : list A :=
  match l with
  | [] => [x]
  | y :: l' => if 0 <? compare x y then y :: sort_insert compare x l' else x :: l
  end.

Definition Array_sort {A} (compare : A -> A -> float) (l : list A) : list A :=
  fold_right (sort_insert compare) [] l.

(** [Object.entries(scores)] for the object literal of [deriveEnneagram]:
    the property names are the numerals 1 to 9, enumerated in ascending
    order; every score is evaluated from left to right. *)
Definition enneagram_scores (pe : PersonalityEngine) : list (Z * float) :=
  let O := tO (ocean pe) in
  let C := tC (ocean pe) in
  let E := tE (ocean pe) in
  let A := tA (ocean pe) in
  let N := tN (ocean pe) in
  [ (1%Z, C * 1.5 + (100 - A) * 0.5 - O * 0.3);
    (2%Z, A * 1.5 + E * 0.5 + N * 0.3);
    (3%Z, C * 1.0 + E * 1.0 + (100 - A) * 0.5);
    (4%Z, O * 1.0 + N * 1.0 + (100 - E) * 0.5);
    (5%Z, O * 1.0 + (100 - E) * 1.0 + (100 - A) * 0.5);
    (6%Z, N * 1.0 + A * 0.5 + C * 0.5);
    (7%Z, O * 1.0 + E * 1.0 + (100 - N) * 0.5);
    (8%Z, E * 1.0 + (100 - A) * 1.0 + (100 - N) * 0.5);
    (9%Z, A * 1.0 + (100 - N) * 1.0 + (100 - C) * 0.3) ].

(** The comparator [(a, b) => b[1] - a[1]]. *)
Definition by_score_descending (a b : Z * float) : float := snd b - snd a.

(** [sorted[0][0]] raises a [TypeError] on an empty array: [None]. *)
Definition deriveEnneagram (pe : PersonalityEngine) : option Personality.Enneagram :=
  match Array_sort by_score_descending (enneagram_scores pe) with
  | (type, _) :: _ =>
      Some {| Personality.enneagram_type := type;
              Personality.enneagram_description :=
                snd <$> List.find (fun d => Z.eqb (fst d) type)
                          Personality.enneagram_descriptions |}
  | [] => None
  end.

End Double.

(** ** Vocabulary of the specification *)

(** [y] is [x] clamped to the range from [lo] to [hi]. *)
Definition clamped (lo hi x y : Q) : Prop :=
  (x < lo /\ y == lo) \/ (hi < x /\ y == hi) \/ (lo <= x <= hi /\ y == x).

(** [y] is [x] floored at [lo]. *)
Definition floored (lo x y : Q) : Prop :=
  (x < lo /\ y == lo) \/ (lo <= x /\ y == x).

(** The keys of a weight map that name a dimension. *)
Definition recognized (kv : string * Q) : bool :=
  match ocean_hasOwnProperty (fst kv) with
  | Some _ => true
  | None => false
  end.

(** Every trait is within 0 and 100, every confidence band within 5 and 100. *)
Definition in_range (pe : PersonalityEngine) : Prop :=
  forall d : Dim,
    (0 <= tget d (ocean pe) <= 100) /\ (5 <= tget d (confidence pe) <= 100).

(** A value that is a number: not [NaN]. *)
Definition is_number (x : float) : Prop := is_nan x = false.

(** [y] is the double [x] clamped to the range from [lo] to [hi]. *)
Definition clamped_double (lo hi x y : float) : Prop :=
  ((x <? lo)%float = true /\ y = lo)
  \/ ((hi <? x)%float = true /\ y = hi)
  \/ ((lo <=? x)%float = true /\ (x <=? hi)%float = true /\ y = x).

(** The double [y] lies within [lo] and [hi]. *)
Definition within_double (lo hi y : float) : Prop :=
  (lo <=? y)%float = true /\ (y <=? hi)%float = true.

(** The dimensions that the specification recognizes, by name, each with
    its current value. *)
Definition spec_dimensions (pe : Double.PersonalityEngine) : gmap string float :=
  {[ "O" := Double.tO (Double.ocean pe);
     "C" := Double.tC (Double.ocean pe);
     "E" := Double.tE (Double.ocean pe);
     "A" := Double.tA (Double.ocean pe);
     "N" := Double.tN (Double.ocean pe) ]}.

(** What one weighted dimension adds to the alignment: one term for a
    positive weight, the other term otherwise. *)
Definition spec_contribution (traitValue weight : float) : float :=
  (if 0 <? weight then (traitValue - 50) * (weight / 20)
   else (50 - traitValue) * (abs weight / 20))%float.

(** The alignment before the stress adjustment: 50 plus, in the order of
    the map, the contribution of every recognized dimension. *)
Definition spec_alignment (pe : Double.PersonalityEngine) (weights : jsobj float) : float :=
  fold_left
    (fun sum kv =>
       match spec_dimensions pe !! fst kv with
       | Some traitValue => (sum + spec_contribution traitValue (snd kv))%float
       | None => sum
       end)
    weights 50%float.

(** The stress adjustment of an alignment. *)
Definition spec_stress_adjustment (pe : Double.PersonalityEngine) (delta : option float)
    (alignment : float) : float :=
  match delta with
  | Some d =>
      (if d <? 0 then alignment + Double.stress pe * 0.2
       else if 10 <? d then alignment - Double.stress pe * 0.15
       else alignment)%float
  | None => alignment
  end.

(** The table of the nine Enneagram formulas of the specification,
    evaluated in double arithmetic. *)
Definition enneagram_formula_double (O C E A N : float) (type : Z) : float :=
  match type with
  | 1%Z => 1.5 * C + 0.5 * (100 - A) - 0.3 * O
  | 2%Z => 1.5 * A + 0.5 * E + 0.3 * N
  | 3%Z => 1.0 * C + 1.0 * E + 0.5 * (100 - A)
  | 4%Z => 1.0 * O + 1.0 * N + 0.5 * (100 - E)
  | 5%Z => 1.0 * O + 1.0 * (100 - E) + 0.5 * (100 - A)
  | 6%Z => 1.0 * N + 0.5 * A + 0.5 * C
  | 7%Z => 1.0 * O + 1.0 * E + 0.5 * (100 - N)
  | 8%Z => 1.0 * E + 1.0 * (100 - A) + 0.5 * (100 - N)
  | 9%Z => 1.0 * A + 1.0 * (100 - N) + 0.3 * (100 - C)
  | _ => 0
  end%float.

(** The computed score of a type for the current vector, by that table. *)
Definition enneagram_score_double (pe : Double.PersonalityEngine) (type : Z) : float :=
  enneagram_formula_double
    (Double.tO (Double.ocean pe)) (Double.tC (Double.ocean pe))
    (Double.tE (Double.ocean pe)) (Double.tA (Double.ocean pe))
    (Double.tN (Double.ocean pe)) type.





(** An engine of doubles with the given vector and the initial stress. *)
Definition with_ocean_double (O C E A N : float) : Double.PersonalityEngine :=
  {| Double.ocean := Double.mkTraits O C E A N; Double.stress := 30%float |}.



(** An engine whose vector is the given one, the rest as initially. *)
Definition with_ocean (O C E A N : Q) : PersonalityEngine :=
  {| ocean := mkTraits O C E A N;
     confidence := confidence Personality.initial;
     stress := stress Personality.initial;
     trajectoryTags := trajectoryTags Personality.initial |}.

(** A scenario is eligible for an engine when its identifier is not in the
    history, its stage affinity is "any" or the current stage, and its age
    range contains the current age, both ends included. *)
Definition eligible (es : EventSystem) (scenario : Scenario) : Prop :=
(scenario_id scenario ∉ map scenarioId (eventHistory es))
  /\ (life_stage scenario = "any" \/ life_stage scenario = currentStage es)
  /\ exists minAge maxAge : Z,
       age_range scenario = Some (minAge, maxAge)
       /\ (minAge <= currentAge es <= maxAge)%Z.

(** The engine holds a catalogue each of whose entries has an age range. *)
Definition complete_catalogue (es : EventSystem) : Prop :=
  exists l, scenarios es = Some l /\ Forall (fun sc => is_Some (age_range sc)) l.

(** The entries of the catalogue the engine holds. *)
Definition catalogue_entries (es : EventSystem) : list Scenario :=
  default [] (scenarios es).

(** The failures of a load that happen before the document is read:
    the source is unreachable or its text cannot be used as a document. *)
Definition unreadable (response : Fetched) : Prop :=
  match response with
  | FetchRejected | JsonRejected | Parsed None => True
  | Parsed (Some _) => False
  end.

(** [Object_entries] enumerates every entry of a map of counters once. *)
Definition enumerates (Object_entries : gmap string nat -> list (string * nat)) : Prop :=
  forall m, Object_entries m ≡ₚ map_to_list m.

(** The count of a tag: 0 for a tag never granted. *)
Definition tag_count (pe : PersonalityEngine) (tag : string) : nat :=
  default 0%nat (trajectoryTags pe !! tag).

(** Traits and confidence bands are in range and stress is within 0 and 100. *)
Definition healthy (pe : PersonalityEngine) : Prop :=
  in_range pe /\ 0 <= stress pe <= 100.

(** The stage is the one [updateStage] derives from the age. *)
Definition stage_matches_age (es : EventSystem) : Prop :=
  ((currentAge es <= 25)%Z /\ currentStage es = "early")
  \/ ((26 <= currentAge es <= 50)%Z /\ currentStage es = "mid")
  \/ ((51 <= currentAge es)%Z /\ currentStage es = "later").



(** Every weight of the map is of magnitude at most 1e300. *)
Definition moderate_weights (weights : jsobj Q) : Prop :=
  Forall (fun kv => Qabs (snd kv) <= 10 ^ 300) weights.

(** Every value [Math.random()] returns is at least 0 and below 1. *)
Definition unit_draw (random : Q) : Prop := 0 <= random < 1.

(** A session: the choices resolved one after the other, each with its
    scenario and the value [Math.random()] returned for it. *)
Definition play (steps : list (Q * Scenario * Choice))
    (session : PersonalityEngine * EventSystem) : PersonalityEngine * EventSystem :=
  fold_left
    (fun session step =>
       let result :=
         Events.processChoice (fst (fst step)) (snd (fst step)) (snd step)
           (fst session) (snd session) in
       (snd (fst result), snd result))
    steps session.

(** The engine after [loadScenarios] has stored the three members of a
    document: everything else is as before. *)
Definition with_document (data : Catalogue) (es : EventSystem) : EventSystem :=
  {| scenarios := data_scenarios data;
     currentAge := currentAge es;
     currentStage := currentStage es;
     eventHistory := eventHistory es;
     availableScenarios := availableScenarios es;
     trajectoryDescriptions := data_trajectory_descriptions data;
     globalModifiers := data_global_modifiers data |}.

(** The document [{}]: it parses and has none of the three members. *)
Definition empty_document : Catalogue :=
  {| data_scenarios := None;
     data_trajectory_descriptions := None;
     data_global_modifiers := None |}.

(** ** Arithmetic facts *)


Section MathFacts.

Lemma js_ge_spec (a b : Q) : js_ge a b = true <-> b <= a.
Proof. unfold js_ge. apply Qle_bool_iff. Qed.

Lemma js_gt_spec (a b : Q) : js_gt a b = true <-> b < a.
Proof.
  unfold js_gt. rewrite negb_true_iff. split.
  - intros H. apply Qnot_le_lt. intros Hle. apply Qle_bool_iff in Hle. congruence.
  - intros H. destruct (Qle_bool a b) eqn:Hb; [|reflexivity].
    apply Qle_bool_iff in Hb. lra.
Qed.

Lemma js_gt_false (a b : Q) : js_gt a b = false <-> a <= b.
Proof.
  rewrite <- not_true_iff_false, js_gt_spec. split; intros H; lra.
Qed.

Lemma js_lt_spec (a b : Q) : js_lt a b = true <-> a < b.
Proof. apply (js_gt_spec b a). Qed.

Lemma js_lt_false (a b : Q) : js_lt a b = false <-> b <= a.
Proof. apply (js_gt_false b a). Qed.

Lemma max_cases (a b : Q) :
  (a <= b /\ Math.max a b = b) \/ (b < a /\ Math.max a b = a).
Proof.
  unfold Math.max. destruct (Qle_bool a b) eqn:H.
  - left. apply Qle_bool_iff in H. auto.
  - right. split; [|reflexivity]. apply (js_gt_spec a b). unfold js_gt. now rewrite H.
Qed.

Lemma min_cases (a b : Q) :
  (a <= b /\ Math.min a b = a) \/ (b < a /\ Math.min a b = b).
Proof.
  unfold Math.min. destruct (Qle_bool a b) eqn:H.
  - left. apply Qle_bool_iff in H. auto.
  - right. split; [|reflexivity]. apply (js_gt_spec a b). unfold js_gt. now rewrite H.
Qed.

Lemma clamp_clamped (lo hi x : Q) :
  lo <= hi -> clamped lo hi x (Math.max lo (Math.min hi x)).
Proof.
  intros Hlh. unfold clamped.
  destruct (min_cases hi x) as [[H1 ->]|[H1 ->]].
  - destruct (max_cases lo hi) as [[H2 ->]|[H2 ->]]; [|lra].
    destruct (Qlt_le_dec hi x); [right; left; split; [assumption|reflexivity]|].
    right; right. split; lra.
  - destruct (max_cases lo x) as [[H2 ->]|[H2 ->]].
    + right; right. split; [lra|reflexivity].
    + left. split; [assumption|reflexivity].
Qed.

Lemma clamp_bounds (lo hi x : Q) :
  lo <= hi -> lo <= Math.max lo (Math.min hi x) <= hi.
Proof.
  intros Hlh. destruct (clamp_clamped lo hi x Hlh) as [[? ?]|[[? ?]|[? ?]]]; lra.
Qed.

Lemma floor_floored (lo x : Q) : floored lo x (Math.max lo x).
Proof.
  unfold floored. destruct (max_cases lo x) as [[H ->]|[H ->]].
  - right. split; [assumption|reflexivity].
  - left. split; [assumption|reflexivity].
Qed.

End MathFacts.

(** ** Facts about the trait objects and weight maps *)

Section TraitFacts.

Lemma tget_tset_same (d : Dim) (v : Q) (t : Traits) : tget d (tset d v t) = v.
Proof. destruct d; reflexivity. Qed.

Lemma tget_tset_other (d d' : Dim) (v : Q) (t : Traits) :
  d <> d' -> tget d' (tset d v t) = tget d' t.
Proof. destruct d, d'; intros H; try reflexivity; contradiction. Qed.

Lemma spread_id (t : Traits) : Personality.spread t = t.
Proof. destruct t; reflexivity. Qed.

Lemma hasOwnProperty_dim_key (d : Dim) : ocean_hasOwnProperty (dim_key d) = Some d.
Proof. destruct d; reflexivity. Qed.

Lemma hasOwnProperty_Some (k : string) (d : Dim) :
  ocean_hasOwnProperty k = Some d -> k = dim_key d.
Proof.
  unfold ocean_hasOwnProperty.
  repeat lazymatch goal with
    | |- context [String.eqb k ?s] =>
        let H := fresh "Hk" in
        destruct (String.eqb k s) eqn:H;
        [ apply String.eqb_eq in H; intros [= <-]; exact H | ]
    end.
  discriminate.
Qed.

Lemma prop_get_None {V} (k : string) (o : jsobj V) :
  prop_get k o = None <-> k ∉ map fst o.
Proof.
  induction o as [|[k' v] o IH]; simpl.
  - split; [intros _; apply not_elem_of_nil | reflexivity].
  - rewrite not_elem_of_cons.
    destruct (String.eqb k k') eqn:Hk.
    + apply String.eqb_eq in Hk. split; [discriminate|]. intros [H _]. contradiction.
    + apply String.eqb_neq in Hk. rewrite IH. tauto.
Qed.

End TraitFacts.

(** ** applyWeights *)

Section ApplyWeights.

Lemma applyWeight_stress (pe : PersonalityEngine) (kv : string * Q) :
  stress (Personality.applyWeight pe kv) = stress pe
  /\ trajectoryTags (Personality.applyWeight pe kv) = trajectoryTags pe.
Proof. unfold Personality.applyWeight. destruct (ocean_hasOwnProperty kv.1); auto. Qed.

Lemma applyWeight_other (pe : PersonalityEngine) (k : string) (v : Q) (d : Dim) :
  k <> dim_key d ->
  tget d (ocean (Personality.applyWeight pe (k, v))) = tget d (ocean pe)
  /\ tget d (confidence (Personality.applyWeight pe (k, v))) = tget d (confidence pe).
Proof.
  intros Hk. unfold Personality.applyWeight. simpl.
  destruct (ocean_hasOwnProperty k) as [d'|] eqn:Hd; [|auto].
  apply hasOwnProperty_Some in Hd. simpl.
  assert (d' <> d) by congruence.
  split; apply tget_tset_other; assumption.
Qed.

Lemma applyWeight_same (pe : PersonalityEngine) (v : Q) (d : Dim) :
  tget d (ocean (Personality.applyWeight pe (dim_key d, v)))
    = Math.max 0 (Math.min 100 (tget d (ocean pe) + v))
  /\ tget d (confidence (Personality.applyWeight pe (dim_key d, v)))
    = Math.max 5 (tget d (confidence pe) - 2).
Proof.
  unfold Personality.applyWeight. simpl. rewrite hasOwnProperty_dim_key. simpl.
  split; apply tget_tset_same.
Qed.

Lemma applyWeights_stress (weights : jsobj Q) (pe : PersonalityEngine) :
  stress (Personality.applyWeights weights pe) = stress pe
  /\ trajectoryTags (Personality.applyWeights weights pe) = trajectoryTags pe.
Proof.
  unfold Personality.applyWeights. revert pe.
  induction weights as [|kv ws IH]; intros pe; simpl; [auto|].
  destruct (IH (Personality.applyWeight pe kv)) as [-> ->].
  apply applyWeight_stress.
Qed.

Lemma applyWeights_dim (weights : jsobj Q) (pe : PersonalityEngine) (d : Dim) :
  distinct_keys weights ->
  match prop_get (dim_key d) weights with
  | None =>
      tget d (ocean (Personality.applyWeights weights pe)) = tget d (ocean pe)
      /\ tget d (confidence (Personality.applyWeights weights pe)) = tget d (confidence pe)
  | Some w =>
      tget d (ocean (Personality.applyWeights weights pe))
        = Math.max 0 (Math.min 100 (tget d (ocean pe) + w))
      /\ tget d (confidence (Personality.applyWeights weights pe))
        = Math.max 5 (tget d (confidence pe) - 2)
  end.
Proof.
  unfold Personality.applyWeights, distinct_keys. revert pe.
  induction weights as [|[k v] ws IH]; intros pe Hnd; simpl; [auto|].
  inversion Hnd as [|? ? Hnotin Hnd']; subst.
  specialize (IH (Personality.applyWeight pe (k, v)) Hnd').
  destruct (String.eqb (dim_key d) k) eqn:Hk.
  - apply String.eqb_eq in Hk. subst k.
    apply prop_get_None in Hnotin. rewrite Hnotin in IH.
    destruct IH as [-> ->]. apply applyWeight_same.
  - apply String.eqb_neq in Hk.
    destruct (applyWeight_other pe k v d) as [Ho Hc]; [congruence|].
    rewrite Ho, Hc in IH. exact IH.
Qed.

Lemma applyWeights_filter (weights : jsobj Q) (pe : PersonalityEngine) :
  Personality.applyWeights weights pe
  = Personality.applyWeights (List.filter recognized weights) pe.
Proof.
  unfold Personality.applyWeights. revert pe.
  induction weights as [|[k v] ws IH]; intros pe; simpl; [reflexivity|].
  unfold recognized at 1. simpl.
  destruct (ocean_hasOwnProperty k) eqn:Hd; simpl.
  - apply IH.
  - replace (Personality.applyWeight pe (k, v)) with pe; [apply IH|].
    unfold Personality.applyWeight. simpl. now rewrite Hd.
Qed.

Lemma applyWeight_in_range (pe : PersonalityEngine) (kv : string * Q) :
  in_range pe -> in_range (Personality.applyWeight pe kv).
Proof.
  intros Hin d. destruct kv as [k v].
  destruct (decide (k = dim_key d)) as [->|Hne].
  - destruct (applyWeight_same pe v d) as [-> ->].
    split; [apply clamp_bounds; lra|].
    destruct (Hin d) as [_ [Hc1 Hc2]].
    destruct (max_cases 5 (tget d (confidence pe) - 2)) as [[? ->]|[? ->]]; lra.
  - destruct (applyWeight_other pe k v d Hne) as [-> ->]. apply Hin.
Qed.

Lemma applyWeights_in_range (weights : jsobj Q) (pe : PersonalityEngine) :
  in_range pe -> in_range (Personality.applyWeights weights pe).
Proof.
  unfold Personality.applyWeights. revert pe.
  induction weights as [|kv ws IH]; intros pe H; simpl; [assumption|].
  apply IH, applyWeight_in_range, H.
Qed.

Lemma initial_in_range : in_range Personality.initial.
Proof. intros d. destruct d; simpl; lra. Qed.

(** C1. Starting from the initial engine (every trait 50, every confidence
    band 30), after any sequence of calls of [applyWeights], whatever the
    weight maps, every trait lies within 0 and 100 and every confidence
    band within 5 and 100. *)
Theorem applyWeights_calls_in_range (calls : list (jsobj Q)) :
  in_range
    (fold_left (fun pe weights => Personality.applyWeights weights pe)
       calls Personality.initial).
Proof.
  generalize initial_in_range. generalize Personality.initial.
  induction calls as [|w calls IH]; intros pe H; simpl; [assumption|].
  apply IH, applyWeights_in_range, H.
Qed.

(** C8. A call of [applyWeights] returns for every weight map and has the
    effect of the same call on the map without its unrecognized keys; it
    leaves stress and the tag counts as they were; a dimension the map
    does not name keeps its trait and its confidence band; a dimension
    the map names gets its trait plus the weight, clamped to 0..100, and
    its confidence band minus 2, floored at 5. *)
Theorem applyWeights_frame (weights : jsobj Q) (pe : PersonalityEngine) :
  distinct_keys weights ->
  let pe' := Personality.applyWeights weights pe in
  pe' = Personality.applyWeights (List.filter recognized weights) pe
  /\ stress pe' = stress pe
  /\ trajectoryTags pe' = trajectoryTags pe
  /\ forall d : Dim,
       match prop_get (dim_key d) weights with
       | None =>
           tget d (ocean pe') = tget d (ocean pe)
           /\ tget d (confidence pe') = tget d (confidence pe)
       | Some w =>
           clamped 0 100 (tget d (ocean pe) + w) (tget d (ocean pe'))
           /\ floored 5 (tget d (confidence pe) - 2) (tget d (confidence pe'))
       end.
Proof.
  intros Hnd pe'. subst pe'.
  split; [apply applyWeights_filter|].
  destruct (applyWeights_stress weights pe) as [Hs Ht].
  split; [exact Hs|]. split; [exact Ht|].
  intros d. pose proof (applyWeights_dim weights pe d Hnd) as H.
  destruct (prop_get (dim_key d) weights) as [w|]; [|exact H].
  destruct H as [-> ->]. split.
  - apply clamp_clamped. lra.
  - apply floor_floored.
Qed.

End ApplyWeights.

(** ** deriveMBTI *)

Section MBTI.

Lemma deriveMBTI_letters (pe : PersonalityEngine) :
  Personality.deriveMBTI pe
  = String (if js_ge (tE (ocean pe)) 50 then "E" else "I")%char
      (String (if js_ge (tO (ocean pe)) 50 then "N" else "S")%char
         (String (if js_ge (tA (ocean pe)) 50 then "F" else "T")%char
            (String (if js_ge (tC (ocean pe)) 50 then "J" else "P")%char
               EmptyString))).
Proof.
  unfold Personality.deriveMBTI.
  destruct (js_ge (tE (ocean pe)) 50), (js_ge (tO (ocean pe)) 50),
    (js_ge (tA (ocean pe)) 50), (js_ge (tC (ocean pe)) 50); reflexivity.
Qed.

Lemma threshold_letter (v : Q) (hi lo c : ascii) :
  c = (if js_ge v 50 then hi else lo) ->
  (50 <= v -> c = hi) /\ (v < 50 -> c = lo).
Proof.
  intros ->. destruct (js_ge v 50) eqn:H.
  - apply js_ge_spec in H. split; [reflexivity|]. intros. lra.
  - split; [|reflexivity]. intros Hv. apply js_ge_spec in Hv. congruence.
Qed.

(** C2 (as amended). [deriveMBTI] depends on the trait vector alone and
    thresholds each axis at 50 with [>=]: E when Extraversion is at least
    50, else I; N when Openness is at least 50, else S; F when
    Agreeableness is at least 50, else T; J when Conscientiousness is at
    least 50, else P.  For O=60, C=40, E=70, A=30, N=50 it yields ENTP
    (Conscientiousness 40 is below 50), and for the vector with every
    dimension at 50 it yields ENFJ. *)
Theorem deriveMBTI_thresholds :
  (forall pe : PersonalityEngine,
     exists c1 c2 c3 c4 : ascii,
       Personality.deriveMBTI pe
       = String c1 (String c2 (String c3 (String c4 EmptyString)))
       /\ (50 <= tE (ocean pe) -> c1 = "E"%char) /\ (tE (ocean pe) < 50 -> c1 = "I"%char)
       /\ (50 <= tO (ocean pe) -> c2 = "N"%char) /\ (tO (ocean pe) < 50 -> c2 = "S"%char)
       /\ (50 <= tA (ocean pe) -> c3 = "F"%char) /\ (tA (ocean pe) < 50 -> c3 = "T"%char)
       /\ (50 <= tC (ocean pe) -> c4 = "J"%char) /\ (tC (ocean pe) < 50 -> c4 = "P"%char))
  /\ (forall pe pe' : PersonalityEngine,
        ocean pe = ocean pe' -> Personality.deriveMBTI pe = Personality.deriveMBTI pe')
  /\ Personality.deriveMBTI (with_ocean 60 40 70 30 50) = "ENTP"
  /\ Personality.deriveMBTI (with_ocean 50 50 50 50 50) = "ENFJ".
Proof.
  split; [|split; [|split; reflexivity]].
  - intros pe. do 4 eexists. split; [apply deriveMBTI_letters|].
    pose proof (threshold_letter (tE (ocean pe)) "E" "I" _ eq_refl) as [? ?].
    pose proof (threshold_letter (tO (ocean pe)) "N" "S" _ eq_refl) as [? ?].
    pose proof (threshold_letter (tA (ocean pe)) "F" "T" _ eq_refl) as [? ?].
    pose proof (threshold_letter (tC (ocean pe)) "J" "P" _ eq_refl) as [? ?].
    repeat split; assumption.
  - intros pe pe' H. unfold Personality.deriveMBTI. now rewrite H.
Qed.

(** C2 as stated fails: for O=60, C=40, E=70, A=30, N=50 the code does not
    yield ENTJ. *)
Lemma deriveMBTI_example_is_not_ENTJ :
  Personality.deriveMBTI (with_ocean 60 40 70 30 50) <> "ENTJ".
Proof. vm_compute. discriminate. Qed.

End MBTI.

(** ** calculateChoiceProbability and getChoiceAlignment *)

Section ChoiceProbability.

(** *** The order of doubles *)

Lemma SFcompare_antisym (x y : spec_float) :
  SFcompare y x = option_map CompOpp (SFcompare x y).
Proof.
  destruct x as [sx|sx| |sx mx ex], y as [sy|sy| |sy my ey]; simpl;
    try destruct sx; try destruct sy; try reflexivity;
    change (PosDef.Pos.compare_cont Eq) with Pos.compare;
    rewrite (Z.compare_antisym ey ex), (Pos.compare_antisym my mx);
    destruct (ey ?= ex)%Z; simpl; try reflexivity;
    now rewrite ?CompOpp_involutive.
Qed.

Lemma SFcompare_None (x y : spec_float) :
  SFcompare x y = None <-> x = S754_nan \/ y = S754_nan.
Proof.
  destruct x as [sx|sx| |sx mx ex], y as [sy|sy| |sy my ey]; simpl;
    split; intros H; try discriminate H; try (destruct H as [H|H]; discriminate H);
    auto.
Qed.

Lemma SFcompare_refl (x : spec_float) : x <> S754_nan -> SFcompare x x = Some Eq.
Proof.
  destruct x as [s|s| |s m e]; simpl; intros H; try reflexivity.
  - destruct s; reflexivity.
  - contradiction.
  - change (PosDef.Pos.compare_cont Eq) with Pos.compare.
    rewrite Z.compare_refl, Pos.compare_refl. destruct s; reflexivity.
Qed.

Lemma SFcompare_trans (x y z : spec_float) :
  SFcompare x y = Some Lt -> SFcompare y z = Some Lt -> SFcompare x z = Some Lt.
Proof.
  destruct x as [sx|sx| |sx mx ex], y as [sy|sy| |sy my ey], z as [sz|sz| |sz mz ez]; simpl;
    try destruct sx; try destruct sy; try destruct sz; try discriminate; try reflexivity;
    change (PosDef.Pos.compare_cont Eq) with Pos.compare;
    destruct (Z.compare_spec ex ey), (Z.compare_spec ey ez), (Z.compare_spec ex ez);
    try discriminate; try reflexivity; try lia;
    destruct (Pos.compare_spec mx my), (Pos.compare_spec my mz), (Pos.compare_spec mx mz);
    simpl; try discriminate; try reflexivity; try lia.
Qed.

Lemma SFcompare_Eq (x y : spec_float) :
  SFcompare x y = Some Eq ->
  x = y \/ (exists sx sy, x = S754_zero sx /\ y = S754_zero sy).
Proof.
  destruct x as [sx|sx| |sx mx ex], y as [sy|sy| |sy my ey]; simpl;
    try destruct sx; try destruct sy; try discriminate; intros H;
    try (left; reflexivity); try (right; eauto; fail);
    change (PosDef.Pos.compare_cont Eq) with Pos.compare in H;
    destruct (Z.compare_spec ex ey); try discriminate H;
    destruct (Pos.compare_spec mx my); try discriminate H; subst; left; reflexivity.
Qed.

Lemma is_nan_spec (x : float) : is_nan x = true <-> Prim2SF x = S754_nan.
Proof.
  unfold is_nan. rewrite FloatAxioms.eqb_spec. unfold SFeqb. split.
  - intros H. destruct (Prim2SF x) as [s|s| |s m e] eqn:Hx; try reflexivity;
      rewrite SFcompare_refl in H by discriminate; discriminate H.
  - intros ->. reflexivity.
Qed.

Lemma is_number_spec (x : float) : is_number x <-> Prim2SF x <> S754_nan.
Proof.
  unfold is_number. rewrite <- is_nan_spec. destruct (is_nan x); split; congruence.
Qed.

Lemma ltb_leb (x y : float) : (x <? y)%float = true -> (x <=? y)%float = true.
Proof.
  rewrite ltb_spec, leb_spec. unfold SFltb, SFleb.
  destruct (SFcompare _ _) as [[]|]; congruence.
Qed.

Lemma ltb_asym (x y : float) : (x <? y)%float = true -> (y <? x)%float = false.
Proof.
  rewrite !ltb_spec. unfold SFltb. rewrite (SFcompare_antisym (Prim2SF x) (Prim2SF y)).
  destruct (SFcompare _ _) as [[]|]; simpl; congruence.
Qed.

Lemma leb_not_ltb (x y : float) : (x <=? y)%float = true -> (y <? x)%float = false.
Proof.
  rewrite ltb_spec, leb_spec. unfold SFltb, SFleb.
  rewrite (SFcompare_antisym (Prim2SF x) (Prim2SF y)).
  destruct (SFcompare _ _) as [[]|]; simpl; congruence.
Qed.

Lemma ltb_trans (x y z : float) :
  (x <? y)%float = true -> (y <? z)%float = true -> (x <? z)%float = true.
Proof.
  rewrite !ltb_spec. unfold SFltb.
  destruct (SFcompare (Prim2SF x) (Prim2SF y)) as [[]|] eqn:Hxy; try discriminate.
  destruct (SFcompare (Prim2SF y) (Prim2SF z)) as [[]|] eqn:Hyz; try discriminate.
  now rewrite (SFcompare_trans _ _ _ Hxy Hyz).
Qed.

(** Two numbers are ordered one way or the other, or compare equal. *)
Lemma compare_total (x y : float) :
  is_number x -> is_number y ->
  (x <? y)%float = true \/ (y <? x)%float = true
  \/ ((x <=? y)%float = true /\ (y <=? x)%float = true).
Proof.
  rewrite !is_number_spec, !ltb_spec, !leb_spec. unfold SFltb, SFleb. intros Hx Hy.
  rewrite (SFcompare_antisym (Prim2SF x) (Prim2SF y)).
  destruct (SFcompare (Prim2SF x) (Prim2SF y)) as [[]|] eqn:Hc; simpl; auto.
  apply SFcompare_None in Hc. tauto.
Qed.

(** Numbers that compare equal are the same double, unless both are zeros. *)
Lemma leb_antisym (x y : float) :
  (x <=? y)%float = true -> (y <=? x)%float = true ->
  (forall sign, Prim2SF y <> S754_zero sign) -> x = y.
Proof.
  rewrite !leb_spec. unfold SFleb.
  rewrite (SFcompare_antisym (Prim2SF x) (Prim2SF y)).
  destruct (SFcompare (Prim2SF x) (Prim2SF y)) as [[]|] eqn:Hc; simpl; try discriminate.
  intros _ _ Hy. apply Prim2SF_inj.
  destruct (SFcompare_Eq _ _ Hc) as [Heq|(sx & sy & _ & Hzero)]; [exact Heq|].
  destruct (Hy sy Hzero).
Qed.

(** *** The clamp of [calculateChoiceProbability] *)

Lemma clamp_double_NaN (x : float) :
  is_nan x = true -> is_nan (Double.Math.max 10 (Double.Math.min 90 x)) = true.
Proof.
  intros Hx. unfold Double.Math.min. rewrite Hx.
  change (is_nan 90) with false. reflexivity.
Qed.

Lemma clamp_double_number (x : float) :
  is_number x -> clamped_double 10 90 x (Double.Math.max 10 (Double.Math.min 90 x)).
Proof.
  intros Hx. pose proof Hx as Hnan. unfold is_number in Hnan.
  assert (H10 : is_number 10) by reflexivity.
  assert (H90 : is_number 90) by reflexivity.
  assert (Hmin : ((90 <? x)%float = true /\ Double.Math.min 90 x = 90%float)
                 \/ ((90 <? x)%float = false /\ Double.Math.min 90 x = x)).
  { unfold Double.Math.min. rewrite Hnan. change (is_nan 90) with false. cbn [orb].
    destruct (90 <? x)%float; [left; split; reflexivity|right; split; [reflexivity|]].
    destruct (x <? 90)%float; reflexivity. }
  destruct Hmin as [[Hhi ->]|[Hhi ->]].
  { right; left. split; [exact Hhi|reflexivity]. }
  assert (Hle : (x <=? 90)%float = true).
  { destruct (compare_total 90 x H90 Hx) as [H|[H|[_ H]]];
      [congruence|apply ltb_leb, H|exact H]. }
  unfold Double.Math.max. rewrite Hnan. change (is_nan 10) with false. cbn [orb].
  destruct (10 <? x)%float eqn:Hlo.
  { right; right. split; [apply ltb_leb, Hlo|]. split; [exact Hle|reflexivity]. }
  destruct (x <? 10)%float eqn:Hbelow.
  { left. split; [exact Hbelow|reflexivity]. }
  change (get_sign 10) with false. cbv iota.
  assert (Heq : x = 10%float).
  { destruct (compare_total 10 x H10 Hx) as [H|[H|[H1 H2]]]; [congruence..|].
    apply leb_antisym; [exact H2|exact H1|]. intros sign. discriminate. }
  right; right. rewrite Heq. repeat split.
Qed.

Lemma clamped_double_within (x y : float) :
  clamped_double 10 90 x y -> within_double 10 90 y.
Proof.
  intros [[_ ->]|[[_ ->]|(Hlo & Hhi & ->)]]; split; first [reflexivity|assumption].
Qed.

(** *** The specification's reading of [calculateChoiceProbability] *)

Lemma spec_dimensions_lookup (pe : Double.PersonalityEngine) (name : string) :
  spec_dimensions pe !! name
  = (fun d => Double.tget d (Double.ocean pe)) <$> ocean_hasOwnProperty name.
Proof.
  unfold spec_dimensions, ocean_hasOwnProperty.
  repeat (match goal with
          | |- context [String.eqb name ?k] => destruct (String.eqb_spec name k) as [->|?]
          end;
          [rewrite ?lookup_insert_ne by discriminate;
           first [rewrite lookup_insert_eq|rewrite lookup_singleton_eq]; reflexivity|]).
  rewrite !lookup_insert_ne, lookup_singleton_ne by congruence. reflexivity.
Qed.

Lemma alignment_fold_spec (pe : Double.PersonalityEngine) (weights : jsobj float) (a : float) :
  fold_left (Double.alignment_step pe) weights a
  = fold_left
      (fun sum kv =>
         match spec_dimensions pe !! fst kv with
         | Some traitValue => (sum + spec_contribution traitValue (snd kv))%float
         | None => sum
         end)
      weights a.
Proof.
  revert a. induction weights as [|kv ws IH]; intros a; simpl; [reflexivity|].
  rewrite IH. f_equal. unfold Double.alignment_step. rewrite spec_dimensions_lookup.
  destruct (ocean_hasOwnProperty kv.1) as [d|]; simpl; [|reflexivity].
  unfold spec_contribution, Double.Math.abs. destruct (0 <? kv.2)%float; reflexivity.
Qed.

(** C3 as stated fails: with the traits O = 100 and C = 0 and the finite
    weights 1e308 for both, the two terms overflow to the two infinities,
    their sum is [NaN], and so is the result: it is not within 10 and 90. *)
Lemma calculateChoiceProbability_overflow_is_NaN :
  let choice := Double.mkChoice (Some [("O", 1e308%float); ("C", 1e308%float)]) None in
  let pe := with_ocean_double 100 0 50 50 50 in
  is_nan (Double.calculateChoiceProbability choice pe) = true
  /\ ~ within_double 10 90 (Double.calculateChoiceProbability choice pe).
Proof.
  intros choice pe. split; [reflexivity|]. intros [H _]. discriminate H.
Qed.

(** C3 (as amended). [calculateChoiceProbability] returns exactly 0.5 for a
    choice without a weight map.  For a choice with one it computes, in
    double arithmetic and in the order of the map, the alignment that
    starts at 50, adds for every recognized dimension of the map
    (traitValue - 50) * (weight / 20) when the weight is positive and
    (50 - traitValue) * (|weight| / 20) otherwise, then adds stress * 0.2
    when the stress delta is negative and subtracts stress * 0.15 when it
    exceeds 10.  When that alignment is a number the result is the
    alignment clamped to 10..90, and so lies within 10 and 90; when it is
    [NaN] the result is [NaN]. *)
Theorem calculateChoiceProbability_clamps_numbers
    (choice : Double.Choice) (pe : Double.PersonalityEngine) :
  match Double.ocean_weights choice with
  | None => Double.calculateChoiceProbability choice pe = 0.5%float
  | Some weights =>
      let alignment :=
        spec_stress_adjustment pe (Double.stress_delta choice) (spec_alignment pe weights) in
      let probability := Double.calculateChoiceProbability choice pe in
      (is_number alignment ->
       clamped_double 10 90 alignment probability /\ within_double 10 90 probability)
      /\ (is_nan alignment = true -> is_nan probability = true)
  end.
Proof.
  unfold Double.calculateChoiceProbability.
  destruct (Double.ocean_weights choice) as [weights|]; [|reflexivity].
  cbv zeta.
  replace (Double.stress_adjust pe (Double.stress_delta choice)
             (fold_left (Double.alignment_step pe) weights 50%float))
    with (spec_stress_adjustment pe (Double.stress_delta choice) (spec_alignment pe weights)).
  2:{ unfold spec_alignment. rewrite <- alignment_fold_spec.
      unfold spec_stress_adjustment, Double.stress_adjust.
      destruct (Double.stress_delta choice); reflexivity. }
  split.
  - intros Hnumber. pose proof (clamp_double_number _ Hnumber) as Hclamped.
    split; [exact Hclamped|]. eapply clamped_double_within, Hclamped.
  - apply clamp_double_NaN.
Qed.

(** With the weights 1e17 the two terms cancel exactly, but the first sum
    is rounded before the second term is added: the result is 64, not 50. *)
Example calculateChoiceProbability_rounds_each_sum :
  Double.calculateChoiceProbability
    (Double.mkChoice (Some [("O", 1e17%float); ("C", 1e17%float)]) None)
    (with_ocean_double 100 0 50 50 50)
  = 64%float.
Proof. reflexivity. Qed.

(** C10. For a choice without a weight map [calculateChoiceProbability]
    returns the raw 0.5, below the band 10..90, and [getChoiceAlignment]
    answers "against your nature": 0.5 fails the checks > 70 and > 55 and
    passes the check < 30. *)
Theorem getChoiceAlignment_without_weights (choice : Choice) (pe : PersonalityEngine) :
  ocean_weights choice = None ->
  Personality.calculateChoiceProbability choice pe = 0.5
  /\ Personality.calculateChoiceProbability choice pe < 10
  /\ Events.getChoiceAlignment choice pe = "against your nature".
Proof.
  intros H. unfold Events.getChoiceAlignment, Personality.calculateChoiceProbability.
  rewrite H. repeat split.
Qed.

(** A choice that only changes stress, as an input of C10. *)
Lemma getChoiceAlignment_without_weights_witness :
  let choice := mkChoice "rest" "Rest" "Take a break" "You rested." None (Some (-5)) None in
  ocean_weights choice = None
  /\ Events.getChoiceAlignment choice Personality.initial = "against your nature".
Proof.
  intros choice. split; [reflexivity|].
  apply (getChoiceAlignment_without_weights choice Personality.initial). reflexivity.
Defined.

End ChoiceProbability.

(** ** deriveEnneagram *)

Section Enneagram.

Lemma enneagram_scores_keys (pe : PersonalityEngine) :
  map fst (Personality.enneagram_scores pe) = [1; 2; 3; 4; 5; 6; 7; 8; 9]%Z.
Proof. reflexivity. Qed.

(** *** The sort of [deriveEnneagram] on doubles *)



Lemma sort_insert_length_double {A} (compare : A -> A -> float) (x : A) (l : list A) :
  length (Double.sort_insert compare x l) = S (length l).
Proof.
  induction l as [|y l IH]; simpl; [reflexivity|].
  destruct (0 <? compare x y)%float; simpl; [now rewrite IH|reflexivity].
Qed.

Lemma Array_sort_length_double {A} (compare : A -> A -> float) (l : list A) :
  length (Double.Array_sort compare l) = length l.
Proof.
  induction l as [|x l IH]; [reflexivity|].
  change (Double.Array_sort compare (x :: l))
    with (Double.sort_insert compare x (Double.Array_sort compare l)).
  rewrite sort_insert_length_double, IH. reflexivity.
Qed.









(** At the initial vector the types 3, 4, 5, 7 and 8 have the same
    computed score, 125, and the code returns type 3. *)
Example deriveEnneagram_initial_tie_double :
  Personality.enneagram_type <$> Double.deriveEnneagram (with_ocean_double 50 50 50 50 50)
  = Some 3%Z
  /\ map (enneagram_score_double (with_ocean_double 50 50 50 50 50)) [3; 4; 5; 7; 8]%Z
     = [125; 125; 125; 125; 125]%float.
Proof. split; reflexivity. Qed.



(** At the initial vector the types 3, 4, 5, 7 and 8 tie at 125, and the
    code returns type 3. *)
Example deriveEnneagram_initial_tie :
  Personality.enneagram_type <$> Personality.deriveEnneagram Personality.initial = Some 3%Z.
Proof. reflexivity. Qed.

End Enneagram.

(** ** Availability *)

Section Availability.

Lemma available_complete (es : EventSystem) (scenario : Scenario) :
  is_Some (age_range scenario) ->
  exists keep : bool,
    Events.available es (list_to_set (map scenarioId (eventHistory es))) scenario
    = Normal keep
    /\ (keep = true <-> eligible es scenario).
Proof.
  intros [[minAge maxAge] Hrange]. unfold Events.available, eligible.
  rewrite Hrange.
  case_bool_decide as Hused.
  { apply elem_of_list_to_set in Hused.
    exists false. split; [reflexivity|]. split; [discriminate|]. tauto. }
  rewrite elem_of_list_to_set in Hused.
  destruct (String.eqb_spec (life_stage scenario) "any") as [Hany|Hany];
    destruct (String.eqb_spec (life_stage scenario) (currentStage es)) as [Hstage|Hstage];
    simpl.
  4: { exists false. split; [reflexivity|]. split; [discriminate|].
       intros (_ & [?|?] & _); contradiction. }
  all: rewrite Z.gtb_ltb;
    destruct (Z.ltb_spec (currentAge es) minAge) as [Hmin|Hmin];
    destruct (Z.ltb_spec maxAge (currentAge es)) as [Hmax|Hmax]; simpl.
  all: try (exists false; split; [reflexivity|]; split; [discriminate|];
            intros (_ & _ & a & b & [= <- <-] & Hab); lia).
  all: exists true; split; [reflexivity|]; split; [intros _|reflexivity].
  all: split; [exact Hused|]; split; [tauto|].
  all: exists minAge, maxAge; split; [reflexivity|lia].
Qed.

Lemma Array_filter_complete {A} (callback : A -> completion bool) (P : A -> Prop)
    (l : list A) :
  Forall (fun x => exists keep : bool, callback x = Normal keep /\ (keep = true <-> P x)) l ->
  exists kept, Events.Array_filter callback l = Normal kept
    /\ forall x, x ∈ kept <-> x ∈ l /\ P x.
Proof.
  induction 1 as [|x l (keep & Hx & HP) _ (kept & Hl & IH)]; simpl.
  - exists []. split; [reflexivity|]. intros x. rewrite elem_of_nil. tauto.
  - rewrite Hx, Hl. simpl. destruct keep.
    + exists (x :: kept). split; [reflexivity|]. intros y.
      rewrite !elem_of_cons, IH. split.
      * intros [->|[? ?]]; [split; [auto|apply HP; reflexivity]|auto].
      * intros [[->|?] ?]; auto.
    + exists kept. split; [reflexivity|]. intros y.
      rewrite elem_of_cons, IH. split.
      * intros [? ?]; auto.
      * intros [[->|?] Hy]; [|auto]. apply HP in Hy. discriminate.
Qed.

(** With a catalogue whose entries all have an age range, refreshing
    returns, and leaves as available exactly the eligible entries. *)
Lemma refreshAvailableScenarios_complete (es : EventSystem) :
  complete_catalogue es ->
  exists avail,
    Events.refreshAvailableScenarios es = Normal (Events.set_availableScenarios avail es)
    /\ forall sc, sc ∈ avail <-> sc ∈ catalogue_entries es /\ eligible es sc.
Proof.
  intros (l & Hl & Hall). unfold Events.refreshAvailableScenarios, catalogue_entries.
  rewrite Hl. simpl.
  destruct (Array_filter_complete
              (Events.available es (list_to_set (map scenarioId (eventHistory es))))
              (eligible es) l) as (kept & Hk & Hspec).
  { eapply Forall_impl; [exact Hall|]. intros sc Hsc. apply available_complete, Hsc. }
  exists kept. rewrite Hk. split; [reflexivity|exact Hspec].
Qed.

End Availability.

(** ** shouldEndSimulation *)

Section EndOfSimulation.

Lemma shouldEndSimulation_old (es : EventSystem) :
  (75 <= currentAge es)%Z -> Events.shouldEndSimulation es = Normal (true, es).
Proof.
  intros H. unfold Events.shouldEndSimulation.
  destruct (Z.geb_spec (currentAge es) 75) as [_|Hlt]; [reflexivity|lia].
Qed.

(** C7. Once the age is 75 or more [shouldEndSimulation] returns true
    whatever the catalogue.  With a catalogue whose entries all have an age
    range it returns, and its answer is true exactly when the age is 75 or
    more, or the availability it has just recomputed (the eligible entries
    of the catalogue) is empty and the history has at least 5 events: so
    below 75 with 4 events and nothing available it is false, and with 5
    events and nothing available it is true. *)
Theorem shouldEndSimulation_iff (es : EventSystem) :
  ((75 <= currentAge es)%Z -> Events.shouldEndSimulation es = Normal (true, es))
  /\ (complete_catalogue es ->
      exists (es1 : EventSystem) (answer : bool) (es2 : EventSystem),
        Events.refreshAvailableScenarios es = Normal es1
        /\ (forall sc, sc ∈ availableScenarios es1
                       <-> sc ∈ catalogue_entries es /\ eligible es sc)
        /\ Events.shouldEndSimulation es = Normal (answer, es2)
        /\ (answer = true
            <-> (75 <= currentAge es)%Z
                \/ (availableScenarios es1 = []
                    /\ (5 <= length (eventHistory es))%nat))
        /\ ((currentAge es < 75)%Z -> length (eventHistory es) = 4%nat ->
            availableScenarios es1 = [] -> answer = false)
        /\ (length (eventHistory es) = 5%nat ->
            availableScenarios es1 = [] -> answer = true)).
Proof.
  split; [apply shouldEndSimulation_old|].
  intros Hwf.
  destruct (refreshAvailableScenarios_complete es Hwf) as (avail & Href & Havail).
  exists (Events.set_availableScenarios avail es).
  assert (Hiff : exists answer es2,
             Events.shouldEndSimulation es = Normal (answer, es2)
             /\ (answer = true
                 <-> (75 <= currentAge es)%Z
                     \/ (avail = [] /\ (5 <= length (eventHistory es))%nat))).
  { unfold Events.shouldEndSimulation. rewrite Href.
    destruct (Z.geb_spec (currentAge es) 75) as [Hold|Hyoung].
    - exists true, es. split; [reflexivity|]. split; [intros _; left; lia|reflexivity].
    - unfold mbind, completion_bind.
      cbn [availableScenarios eventHistory Events.set_availableScenarios].
      destruct avail as [|sc avail]; cbn [length Nat.eqb andb].
      + destruct (Nat.leb_spec 5 (length (eventHistory es))) as [Hlen|Hlen];
          eexists _, _; (split; [reflexivity|]).
        * split; [intros _; right; auto|reflexivity].
        * split; [discriminate|]. intros [?|[_ ?]]; lia.
      + eexists _, _. split; [reflexivity|].
        split; [discriminate|]. intros [?|[? _]]; [lia|discriminate]. }
  destruct Hiff as (answer & es2 & Hend & Hiff).
  exists answer, es2. simpl.
  split; [exact Href|]. split; [exact Havail|]. split; [exact Hend|].
  split; [exact Hiff|]. split.
  - intros Hyoung Hlen Hempty. destruct answer; [|reflexivity].
    destruct Hiff as [Hiff _]. destruct (Hiff eq_refl) as [?|[_ ?]]; lia.
  - intros Hlen Hempty. apply Hiff. right. split; [exact Hempty|lia].
Qed.

End EndOfSimulation.

(** ** getState and restoreState *)

Section Snapshots.

Lemma reset_complete (es : EventSystem) :
  complete_catalogue es ->
  exists fresh, Events.reset es = Normal fresh
    /\ scenarios fresh = scenarios es
    /\ currentAge fresh = 18%Z /\ currentStage fresh = "early"
    /\ eventHistory fresh = [].
Proof.
  intros Hwf. unfold Events.reset.
  match goal with |- context [Events.refreshAvailableScenarios ?e] =>
    destruct (refreshAvailableScenarios_complete e Hwf) as (avail & -> & _) end.
  eexists. split; [reflexivity|]. repeat split.
Qed.

(** C6. Restoring a snapshot of the personality engine into a reset engine
    gives back the engine the snapshot was taken from: vector, confidence
    bands, stress and tag counts.  Restoring a snapshot of the event system
    into a reset engine (one whose catalogue entries all have an age range)
    returns, gives back the age, the stage and the history of the engine
    the snapshot was taken from, and leaves as available exactly the
    catalogue entries eligible for that age, stage and history, whatever
    availability either engine held before. *)
Theorem getState_restoreState_roundtrip :
  (forall pe other : PersonalityEngine,
     Personality.restoreState (Personality.getState pe) (Personality.reset other) = pe)
  /\ (forall es other : EventSystem,
        complete_catalogue other ->
        exists fresh restored : EventSystem,
          Events.reset other = Normal fresh
          /\ Events.restoreState (Events.getState es) fresh = Normal restored
          /\ currentAge restored = currentAge es
          /\ currentStage restored = currentStage es
          /\ eventHistory restored = eventHistory es
          /\ scenarios restored = scenarios other
          /\ forall sc, sc ∈ availableScenarios restored
                        <-> sc ∈ catalogue_entries other /\ eligible restored sc).
Proof.
  split.
  - intros [o c s t] other. unfold Personality.restoreState, Personality.getState.
    simpl. now rewrite !spread_id.
  - intros es other Hwf.
    destruct (reset_complete other Hwf) as (fresh & Hreset & Hsc & _).
    exists fresh. unfold Events.restoreState, Events.getState. simpl.
    match goal with |- context [Events.refreshAvailableScenarios ?e] =>
      destruct (refreshAvailableScenarios_complete e) as (avail & Href & Havail) end.
    { unfold complete_catalogue. simpl. rewrite Hsc. exact Hwf. }
    eexists. split; [exact Hreset|]. split; [exact Href|]. simpl.
    repeat (split; [first [reflexivity | exact Hsc]|]).
    intros sc. rewrite Havail. unfold catalogue_entries, eligible. simpl.
    rewrite Hsc. reflexivity.
Qed.

End Snapshots.

(** ** loadScenarios *)

Section Loading.

(** C9 as stated fails: loading the document [{}] reports failure and yet
    leaves the engine without the scenario list it had. *)
Lemma loadScenarios_failure_replaces_scenarios :
  fst (Events.loadScenarios (Parsed (Some empty_document)) Events.initial) = false
  /\ scenarios (snd (Events.loadScenarios (Parsed (Some empty_document)) Events.initial))
     <> scenarios Events.initial.
Proof. split; [reflexivity|discriminate]. Qed.

(** C9 (as amended). [loadScenarios] returns for every outcome of the fetch,
    and it reports every failure by returning [false].  When the source is
    unreachable or its text cannot be used as a document it returns [false]
    and the engine is as before the call.  When a document is read and
    refreshing availability on its members raises, it returns [false] and
    leaves the engine holding the members of the document.  Conversely,
    whenever it returns [false], age, stage, history and the
    available-scenario set are as before the call; if a document was read,
    the scenario list and the two auxiliary tables are those of the
    document, and refreshing availability on them raises. *)
Theorem loadScenarios_failure (response : Fetched) (es : EventSystem) :
  (unreadable response -> Events.loadScenarios response es = (false, es))
  /\ (forall data message,
        response = Parsed (Some data) ->
        Events.refreshAvailableScenarios (with_document data es) = TypeError message ->
        Events.loadScenarios response es = (false, with_document data es))
  /\ (fst (Events.loadScenarios response es) = false <->
      unreadable response
      \/ exists data message,
           response = Parsed (Some data)
           /\ Events.refreshAvailableScenarios (with_document data es) = TypeError message)
  /\ (fst (Events.loadScenarios response es) = false ->
      let es' := snd (Events.loadScenarios response es) in
      currentAge es' = currentAge es
      /\ currentStage es' = currentStage es
      /\ eventHistory es' = eventHistory es
      /\ availableScenarios es' = availableScenarios es
      /\ match response with
         | Parsed (Some data) =>
             scenarios es' = data_scenarios data
             /\ trajectoryDescriptions es' = data_trajectory_descriptions data
             /\ globalModifiers es' = data_global_modifiers data
             /\ exists message, Events.refreshAvailableScenarios es' = TypeError message
         | _ => es' = es
         end).
Proof.
  split; [|split; [|split]].
  - destruct response as [| |[data|]]; simpl; intros H; [reflexivity..|contradiction|reflexivity].
  - intros data message -> Href. unfold Events.loadScenarios.
    change (mkEventSystem (data_scenarios data) (currentAge es) (currentStage es)
              (eventHistory es) (availableScenarios es)
              (data_trajectory_descriptions data) (data_global_modifiers data))
      with (with_document data es).
    rewrite Href. reflexivity.
  - destruct response as [| |[data|]]; simpl;
      try (split; [intros _; left; exact I|reflexivity]).
    change (mkEventSystem (data_scenarios data) (currentAge es) (currentStage es)
              (eventHistory es) (availableScenarios es)
              (data_trajectory_descriptions data) (data_global_modifiers data))
      with (with_document data es).
    destruct (Events.refreshAvailableScenarios (with_document data es)) as [es2|message] eqn:Href;
      simpl; split.
    + discriminate.
    + intros [[]|(data' & message & Heq & Hraise)]. injection Heq as <-.
      rewrite Href in Hraise. discriminate.
    + intros _. right. exists data, message. split; [reflexivity|exact Href].
    + reflexivity.
  - destruct response as [| |[data|]]; simpl; try (intros _; repeat split; reflexivity).
    match goal with |- context [Events.refreshAvailableScenarios ?e] =>
      set (es1 := e); destruct (Events.refreshAvailableScenarios es1) as [es2|message] eqn:Href end;
      simpl; [discriminate|].
    intros _. repeat split. exists message. exact Href.
Qed.

End Loading.

(** ** processChoice *)

Section ProcessChoice.

Lemma clamp_inside (lo hi x : Q) :
  lo <= x -> x < hi -> Math.max lo (Math.min hi x) = x.
Proof.
  intros H1 H2.
  destruct (min_cases hi x) as [[H _]|[_ ->]]; [lra|].
  destruct (max_cases lo x) as [[_ ->]|[H _]]; [reflexivity|lra].
Qed.

Lemma js_neq0_false (a : Q) : a == 0 -> js_neq0 a = false.
Proof. intros H. unfold js_neq0. apply Qeq_bool_iff in H. now rewrite H. Qed.

Lemma js_neq0_true (a : Q) : ~ a == 0 -> js_neq0 a = true.
Proof.
  intros H. unfold js_neq0. destruct (Qeq_bool a 0) eqn:Hb; [|reflexivity].
  apply Qeq_bool_iff in Hb. contradiction.
Qed.

Lemma floor_of_random (random : Q) :
  0 <= random < 1 -> Math.floor (random * 2) = 0%Z \/ Math.floor (random * 2) = 1%Z.
Proof.
  intros [H0 H1]. unfold Math.floor.
  assert (Hlo : (0 <= Qfloor (random * 2))%Z).
  { change 0%Z with (Qfloor 0). apply Qfloor_resp_le. lra. }
  assert (Hhi : (Qfloor (random * 2) < 2)%Z).
  { destruct (Z_lt_le_dec (Qfloor (random * 2)) 2) as [Hlt|Hle]; [exact Hlt|exfalso].
    pose proof (Qfloor_le (random * 2)) as Hf.
    rewrite Zle_Qle in Hle.
    assert (Hge : inject_Z 2 <= random * 2) by (eapply Qle_trans; eassumption).
    change (inject_Z 2) with 2 in Hge. lra. }
  lia.
Qed.

(** C5. From age 18, stage early, an empty history, every trait at 50 and
    stress at 30, resolving a choice with stress delta -10 and weight map
    {C: +15}, for any scenario and any draw of the random source, leaves
    stress no higher than before and not below 0, raises Conscientiousness
    by exactly 15, advances the age by 2 or by 3, and makes the history the
    single returned record, whose [oceanChanges] has the one key C. *)
Theorem processChoice_first_choice
    (random w delta : Q) (scenario : Scenario) (choice : Choice)
    (pe : PersonalityEngine) (es : EventSystem) :
  0 <= random < 1 ->
  w == 15 -> delta == -10 ->
  ocean_weights choice = Some [("C", w)] ->
  stress_delta choice = Some delta ->
  (forall d : Dim, tget d (ocean pe) == 50) ->
  stress pe == 30 ->
  currentAge es = 18%Z -> currentStage es = "early" -> eventHistory es = [] ->
  match Events.processChoice random scenario choice pe es with
  | (event, pe', es') =>
      stress pe' <= stress pe /\ 0 <= stress pe'
      /\ tC (ocean pe') == tC (ocean pe) + 15
      /\ (currentAge es' = currentAge es + 2 \/ currentAge es' = currentAge es + 3)%Z
      /\ eventHistory es' = [event]
      /\ length (eventHistory es') = 1%nat
      /\ map fst (oceanChanges event) = ["C"]
  end.
Proof.
  intros Hrandom Hw Hdelta Hweights Hstress Hocean Hs Hage Hstage Hhistory.
  pose proof (Hocean DimO) as HO. pose proof (Hocean DimC) as HC.
  pose proof (Hocean DimE) as HE. pose proof (Hocean DimA) as HA.
  pose proof (Hocean DimN) as HN. clear Hocean.
  destruct pe as [[o c e a n] conf s tags]. simpl in HO, HC, HE, HA, HN, Hs.
  assert (Hpe1 : Personality.applyWeights [("C", w)] (mkPersonality (mkTraits o c e a n) conf s tags)
                 = mkPersonality (mkTraits o (c + w) e a n)
                     (tset DimC (Math.max 5 (tC conf - 2)) conf) s tags).
  { unfold Personality.applyWeights. cbn [fold_left].
    unfold Personality.applyWeight. cbn.
    rewrite clamp_inside by lra. reflexivity. }
  assert (Hchanges : Events.ocean_changes (mkTraits o c e a n) (mkTraits o (c + w) e a n)
                     = [("C", c + w - c)]).
  { unfold Events.ocean_changes. cbn [fold_left all_dims tget tO tC tE tA tN].
    rewrite (js_neq0_false (o - o)) by ring.
    rewrite (js_neq0_true (c + w - c)) by (intros H; lra).
    rewrite (js_neq0_false (e - e)) by ring.
    rewrite (js_neq0_false (a - a)) by ring.
    rewrite (js_neq0_false (n - n)) by ring.
    reflexivity. }
  unfold Events.processChoice. rewrite Hweights, Hstress, Hhistory, Hpe1.
  cbv zeta.
  assert (Hstress' : Math.max 0 (Math.min 100 (s + delta)) = s + delta)
    by (apply clamp_inside; lra).
  assert (Hadvance : forall es0, currentStage es0 = "early" ->
            Events.calculateAgeAdvance random es0 = (2 + Math.floor (random * 2))%Z).
  { intros es0 H0. unfold Events.calculateAgeAdvance. rewrite H0. reflexivity. }
  destruct (floor_of_random random Hrandom) as [Hfloor|Hfloor];
    destruct (trajectory_tags choice) as [granted|];
    unfold Personality.addTrajectoryTags, Personality.applyStress, Events.updateStage;
    cbn [stress ocean tC currentAge eventHistory oceanChanges app];
    rewrite Hstress', !spread_id, Hchanges, Hadvance by exact Hstage;
    rewrite Hfloor;
    cbn [map fst];
    (split; [lra|]); (split; [lra|]); (split; [lra|]);
    (split; [lia|]); repeat split.
Qed.

(** A first choice "Study hard" with a draw of 0.7, as an input of C5. *)
Lemma processChoice_first_choice_witness :
  let scenario := mkScenario "exam" "The exam" "Finals are near." "early" (Some (15, 25)%Z)
                    (Some ["school"]) [] None in
  let choice := mkChoice "study" "Study hard" "Stay in." "You passed."
                  (Some [("C", 15)]) (Some (-10)) (Some ["discipline"]) in
  match Events.processChoice 0.7 scenario choice Personality.initial Events.initial with
  | (event, pe', es') =>
      tC (ocean pe') == 65 /\ currentAge es' = 21%Z /\ map fst (oceanChanges event) = ["C"]
  end.
Proof.
  intros scenario choice.
  pose proof (processChoice_first_choice 0.7 15 (-10) scenario choice
                Personality.initial Events.initial) as H.
  destruct (Events.processChoice 0.7 scenario choice Personality.initial Events.initial)
    as [[event pe'] es'] eqn:Hrun.
  destruct H as (_ & _ & HC & _ & _ & _ & Hkeys);
    [ split; [discriminate|reflexivity] | reflexivity | reflexivity | reflexivity
    | reflexivity | intros d; destruct d; reflexivity | reflexivity | reflexivity
    | reflexivity | reflexivity | ].
  split; [exact HC|]. split; [|exact Hkeys].
  apply (f_equal snd) in Hrun. simpl in Hrun. subst es'. reflexivity.
Defined.

End ProcessChoice.

(** ** Concrete runs *)

Section Runs.

(** A weight map with an unrecognized key and an excessive weight, as an
    input of C8. *)
Lemma applyWeights_frame_witness :
  let weights : jsobj Q := [("C", 15); ("mood", 3); ("O", -200)] in
  distinct_keys weights
  /\ stress (Personality.applyWeights weights Personality.initial) = 30
  /\ clamped 0 100 (50 + -200)
       (tO (ocean (Personality.applyWeights weights Personality.initial)))
  /\ tE (ocean (Personality.applyWeights weights Personality.initial)) = 50.
Proof.
  intros weights.
  assert (Hkeys : distinct_keys weights).
  { unfold distinct_keys, weights. apply (bool_decide_unpack _). reflexivity. }
  split; [exact Hkeys|].
  destruct (applyWeights_frame weights Personality.initial Hkeys) as (_ & Hs & _ & Hd).
  split; [exact Hs|]. split.
  - exact (proj1 (Hd DimO)).
  - exact (proj1 (Hd DimE)).
Defined.

(** An engine aged 40 with five events behind it and an empty catalogue,
    as an input of C7. *)
Lemma shouldEndSimulation_iff_witness :
  let event :=
    mkEvent "exam" "The exam" "study" "Study hard" 18 "early" "You passed."
      (mkTraits 50 50 50 50 50) 30 (mkTraits 50 65 50 50 50) 20 [("C", 15)] in
  let es := mkEventSystem (Some []) 40 "mid" (replicate 5 event) [] None None in
  complete_catalogue es
  /\ exists es2, Events.shouldEndSimulation es = Normal (true, es2).
Proof.
  intros event es.
  assert (Hwf : complete_catalogue es).
  { exists []. split; [reflexivity|constructor]. }
  split; [exact Hwf|].
  destruct (proj2 (shouldEndSimulation_iff es) Hwf)
    as (es1 & answer & es2 & _ & Havail & Hend & _ & _ & Hfive).
  exists es2. rewrite Hend. f_equal. f_equal. apply Hfive; [reflexivity|].
  destruct (availableScenarios es1) as [|sc rest]; [reflexivity|exfalso].
  destruct (Havail sc) as [Hin _].
  destruct Hin as [Hin _]; [left|]. inversion Hin.
Defined.

(** An engine aged 30 whose availability is stale, restored into the
    reset of an engine with a one-entry catalogue, as an input of C6. *)
Lemma getState_restoreState_roundtrip_witness :
  let job := mkScenario "job" "A job offer" "An offer arrives." "mid" (Some (26, 50)%Z)
               (Some ["career"]) [] None in
  let es := mkEventSystem (Some [job]) 30 "mid" [] [job; job] None None in
  let other := mkEventSystem (Some [job]) 61 "later" [] [] None None in
  complete_catalogue other
  /\ exists fresh restored,
       Events.reset other = Normal fresh
       /\ Events.restoreState (Events.getState es) fresh = Normal restored
       /\ currentAge restored = 30%Z /\ currentStage restored = "mid"
       /\ eventHistory restored = [].
Proof.
  intros job es other.
  assert (Hwf : complete_catalogue other).
  { exists [job]. split; [reflexivity|]. repeat constructor. exists (26, 50)%Z. reflexivity. }
  split; [exact Hwf|].
  destruct (proj2 getState_restoreState_roundtrip es other Hwf)
    as (fresh & restored & Hreset & Hrestore & Hage & Hstage & Hhistory & _).
  exists fresh, restored. repeat split; assumption.
Defined.

(** A catalogue whose only entry lacks an age range: the load reports
    failure, keeps the old availability and has replaced the scenario list. *)
Example loadScenarios_entry_without_age_range :
  let broken := mkScenario "exam" "The exam" "Finals are near." "early" None (Some []) [] None in
  let document := mkCatalogue (Some [broken]) None None in
  let result := Events.loadScenarios (Parsed (Some document)) Events.initial in
  fst result = false
  /\ scenarios (snd result) = Some [broken]
  /\ availableScenarios (snd result) = availableScenarios Events.initial.
Proof. repeat split. Qed.

End Runs.

(** ** Facts about the stable sort *)

Section SortFacts.

Context {A : Type} (compare : A -> A -> Q).

Lemma sort_insert_perm (x : A) (l : list A) :
  Personality.sort_insert compare x l ≡ₚ x :: l.
Proof.
  induction l as [|y l IH]; simpl; [reflexivity|].
  destruct (js_gt (compare x y) 0); [|reflexivity].
  rewrite IH. apply Permutation_swap.
Qed.

Lemma Array_sort_perm (l : list A) : Personality.Array_sort compare l ≡ₚ l.
Proof.
  induction l as [|x l IH]; simpl; [reflexivity|].
  rewrite sort_insert_perm. now rewrite IH.
Qed.

Lemma Array_sort_length (l : list A) :
  length (Personality.Array_sort compare l) = length l.
Proof. apply Permutation_length, Array_sort_perm. Qed.

(** When the comparator is a difference of keys, the result is in
    descending order of key. *)
Lemma Array_sort_descending (key : A -> Q) (l : list A) :
  (forall a b, compare a b == key b - key a) ->
  StronglySorted (fun a b => key b <= key a) (Personality.Array_sort compare l).
Proof.
  intros Hcompare. induction l as [|x l IH]; simpl; [constructor|].
  induction IH as [|y sorted Hsorted IH Hy]; simpl; [repeat constructor|].
  destruct (js_gt (compare x y) 0) eqn:Hgt.
  - apply js_gt_spec in Hgt. rewrite Hcompare in Hgt.
    constructor; [exact IH|].
    rewrite sort_insert_perm. constructor; [lra|exact Hy].
  - apply js_gt_false in Hgt. rewrite Hcompare in Hgt.
    constructor; [constructor; assumption|].
    constructor; [lra|].
    eapply Forall_impl; [exact Hy|]. simpl. intros z Hz. lra.
Qed.

End SortFacts.

Lemma sorted_prefix_dominates {A} (R : A -> A -> Prop) (l : list A) (n : nat) :
  StronglySorted R l ->
  forall x y, x ∈ take n l -> y ∈ drop n l -> R x y.
Proof.
  intros Hsorted. revert n.
  induction Hsorted as [|z l Hsorted IH Hz]; intros n x y Hx Hy.
  - rewrite take_nil in Hx. inversion Hx.
  - destruct n as [|n]; simpl in Hx, Hy; [inversion Hx|].
    apply elem_of_cons in Hx as [->|Hx].
    + rewrite Forall_forall in Hz. apply Hz. eapply subseteq_drop, Hy.
    + eapply IH; eassumption.
Qed.

Lemma sorted_weaken {A} (R R' : A -> A -> Prop) (l : list A) :
  (forall a b, R a b -> R' a b) -> StronglySorted R l -> StronglySorted R' l.
Proof.
  intros HR. induction 1 as [|x l _ IH Hx]; constructor; [exact IH|].
  eapply Forall_impl; [exact Hx|]. intros y. apply HR.
Qed.

(** ** applyStress, addTrajectoryTags and getDominantTrajectories *)

Section StressAndTags.

Lemma applyStress_bounds (delta : Q) (pe : PersonalityEngine) :
  0 <= stress (Personality.applyStress delta pe) <= 100.
Proof. simpl. apply clamp_bounds. lra. Qed.

(** X1. One call of [applyStress] leaves the stress plus the delta, clamped
    to 0..100, whatever the stress was before, and touches nothing else;
    so after any sequence of calls stress is within 0 and 100 as soon as
    the sequence is not empty or stress was in range before it. *)
Theorem applyStress_clamps (deltas : list Q) (delta : Q) (pe : PersonalityEngine) :
  let after := fold_left (fun pe d => Personality.applyStress d pe) deltas pe in
  clamped 0 100 (stress pe + delta) (stress (Personality.applyStress delta pe))
  /\ (deltas <> [] \/ 0 <= stress pe <= 100 -> 0 <= stress after <= 100)
  /\ ocean after = ocean pe
  /\ confidence after = confidence pe
  /\ trajectoryTags after = trajectoryTags pe.
Proof.
  intros after. split; [apply clamp_clamped; lra|]. subst after.
  assert (Hframe : forall ds pe0,
             let after := fold_left (fun pe d => Personality.applyStress d pe) ds pe0 in
             (0 <= stress pe0 <= 100 -> 0 <= stress after <= 100)
             /\ ocean after = ocean pe0 /\ confidence after = confidence pe0
             /\ trajectoryTags after = trajectoryTags pe0).
  { induction ds as [|d ds IH]; intros pe0; simpl; [tauto|].
    destruct (IH (Personality.applyStress d pe0)) as (Hb & -> & -> & ->).
    split; [|repeat split]. intros _. apply Hb, applyStress_bounds. }
  destruct (Hframe deltas pe) as (Hb & Ho & Hc & Ht).
  split; [|repeat split; assumption].
  intros [Hne|Hin]; [|exact (Hb Hin)].
  destruct deltas as [|d ds]; [contradiction|]. simpl.
  apply (Hframe ds (Personality.applyStress d pe)), applyStress_bounds.
Qed.




(** X3. Whatever the order in which the counters are enumerated,
    [getDominantTrajectories] returns distinct tags that all have a
    counter, as many as asked for or all of them if there are fewer, and a
    tag it leaves out never has a higher count than a tag it returns. *)
Theorem getDominantTrajectories_top
    (Object_entries : gmap string nat -> list (string * nat))
    (count : nat) (pe : PersonalityEngine) :
  enumerates Object_entries ->
  let top := Personality.getDominantTrajectories Object_entries count pe in
  length top = Nat.min count (size (trajectoryTags pe))
  /\ NoDup top
  /\ (forall tag, tag ∈ top -> is_Some (trajectoryTags pe !! tag))
  /\ (forall tag other, tag ∈ top -> other ∉ top ->
        (tag_count pe other <= tag_count pe tag)%nat).
Proof.
  intros Henum top. subst top. unfold Personality.getDominantTrajectories.
  set (sorted := Personality.Array_sort Personality.by_count_descending
                   (Object_entries (trajectoryTags pe))).
  assert (Hperm : sorted ≡ₚ map_to_list (trajectoryTags pe)).
  { unfold sorted. rewrite Array_sort_perm. apply Henum. }
  assert (Hdesc : StronglySorted (fun a b => (snd b <= snd a)%nat) sorted).
  { pose proof (Array_sort_descending Personality.by_count_descending
                  (fun a => inject_Z (Z.of_nat (snd a)))
                  (Object_entries (trajectoryTags pe))) as H.
    eapply sorted_weaken; [|apply H; intros a b; reflexivity].
    intros a b Hab. simpl in Hab. rewrite <- Zle_Qle in Hab. lia. }
  assert (Hnodup : NoDup (map fst sorted)).
  { rewrite Hperm. apply NoDup_fst_map_to_list. }
  assert (Hin : forall t n, (t, n) ∈ sorted <-> trajectoryTags pe !! t = Some n).
  { intros t n. rewrite Hperm. apply elem_of_map_to_list. }
  split; [|split; [|split]].
  - rewrite length_map, length_take. f_equal.
    rewrite Hperm. apply length_map_to_list.
  - change (NoDup (fst <$> take count sorted)). rewrite fmap_take.
    exact (sublist_NoDup _ _ Hnodup (sublist_take _ _)).
  - intros tag Htag. apply list_elem_of_In, in_map_iff in Htag as ([t n] & <- & Htn).
    apply list_elem_of_In, subseteq_take, Hin in Htn. simpl. eauto.
  - intros tag other Htag Hother.
    apply list_elem_of_In, in_map_iff in Htag as ([t n] & <- & Htn).
    apply list_elem_of_In in Htn. simpl.
    unfold tag_count. rewrite (proj1 (Hin t n) (subseteq_take _ _ _ Htn)). simpl.
    destruct (trajectoryTags pe !! other) as [n'|] eqn:Hlook; simpl; [|lia].
    apply Hin in Hlook. rewrite <- (take_drop count sorted) in Hlook.
    apply elem_of_app in Hlook as [Hlook|Hlook].
    + exfalso. apply Hother. apply list_elem_of_In, in_map_iff.
      exists (other, n'). split; [reflexivity|]. apply list_elem_of_In, Hlook.
    + apply (sorted_prefix_dominates _ _ count Hdesc (t, n) (other, n') Htn Hlook).
Qed.

(** The enumeration in the order of the map itself, as an input of X3. *)
Lemma getDominantTrajectories_top_witness :
  let pe := Personality.addTrajectoryTags ["career"; "family"; "career"] Personality.initial in
  enumerates map_to_list
  /\ length (Personality.getDominantTrajectories map_to_list 1 pe) = 1%nat.
Proof.
  intros pe.
  assert (Henum : enumerates map_to_list) by (intros m; reflexivity).
  split; [exact Henum|].
  rewrite (proj1 (getDominantTrajectories_top map_to_list 1 pe Henum)).
  reflexivity.
Defined.

End StressAndTags.

(** ** getMBTIDescription, getTraitLevel and generateSummary *)

Section Descriptions.

(** X4. The code [getMBTIDescription] returns is the one [deriveMBTI]
    derives, and its description is that code's entry of the table: each of
    the sixteen codes has an entry, so the fallback text is never returned. *)
Theorem getMBTIDescription_in_table (pe : PersonalityEngine) :
  Personality.mbti_type (Personality.getMBTIDescription pe) = Personality.deriveMBTI pe
  /\ prop_get (Personality.deriveMBTI pe) Personality.mbti_descriptions
     = Some (Personality.mbti_description (Personality.getMBTIDescription pe))
  /\ Personality.mbti_description (Personality.getMBTIDescription pe) <> "Unique blend".
Proof.
  unfold Personality.getMBTIDescription, Personality.deriveMBTI.
  destruct (js_ge (tE (ocean pe)) 50), (js_ge (tO (ocean pe)) 50),
    (js_ge (tA (ocean pe)) 50), (js_ge (tC (ocean pe)) 50);
    (split; [reflexivity|]); (split; [reflexivity|]); discriminate.
Qed.

Lemma trait_level_bands (d : Dim) (pe : PersonalityEngine) :
  let value := tget d (ocean pe) in
  let level := Personality.getTraitLevel (dim_key d) pe in
  (level = "Very Low" <-> value < 25)
  /\ (level = "Low" <-> 25 <= value < 40)
  /\ (level = "Moderate" <-> 40 <= value < 60)
  /\ (level = "High" <-> 60 <= value < 75)
  /\ (level = "Very High" <-> 75 <= value).
Proof.
  intros value level. subst level.
  split; [|split; [|split; [|split]]].
  all: unfold Personality.getTraitLevel; rewrite hasOwnProperty_dim_key;
    fold value; cbv zeta;
    destruct (js_lt value 25) eqn:H25;
      [apply js_lt_spec in H25|apply js_lt_false in H25;
       destruct (js_lt value 40) eqn:H40;
         [apply js_lt_spec in H40|apply js_lt_false in H40;
          destruct (js_lt value 60) eqn:H60;
            [apply js_lt_spec in H60|apply js_lt_false in H60;
             destruct (js_lt value 75) eqn:H75;
               [apply js_lt_spec in H75|apply js_lt_false in H75]]]];
    (split; [intros Heq; try discriminate Heq; try lra
            |intros Hv; try reflexivity; exfalso; lra]).
Qed.

(** X5. For a dimension, [getTraitLevel] answers by the band of its value:
    below 25, from 25 to below 40, from 40 to below 60, from 60 to below
    75, and 75 or more.  For a name that is not a dimension it answers
    "Very High". *)
Theorem getTraitLevel_bands (trait : string) (d : Dim) (pe : PersonalityEngine) :
  let value := tget d (ocean pe) in
  let level := Personality.getTraitLevel (dim_key d) pe in
  (level = "Very Low" <-> value < 25)
  /\ (level = "Low" <-> 25 <= value < 40)
  /\ (level = "Moderate" <-> 40 <= value < 60)
  /\ (level = "High" <-> 60 <= value < 75)
  /\ (level = "Very High" <-> 75 <= value)
  /\ (ocean_hasOwnProperty trait = None ->
      Personality.getTraitLevel trait pe = "Very High").
Proof.
  intros value level.
  destruct (trait_level_bands d pe) as (H1 & H2 & H3 & H4 & H5).
  repeat (split; [assumption|]).
  intros H. unfold Personality.getTraitLevel. now rewrite H.
Qed.

Lemma deriveEnneagram_returns (pe : PersonalityEngine) :
  is_Some (Personality.deriveEnneagram pe).
Proof.
  unfold Personality.deriveEnneagram.
  pose proof (Array_sort_length Personality.by_score_descending
                (Personality.enneagram_scores pe)) as Hlen.
  destruct (Personality.Array_sort _ _) as [|[type score] rest]; [discriminate Hlen|].
  eexists. reflexivity.
Qed.

Lemma traitNames_inj (d d' : Dim) :
  Personality.traitNames d = Personality.traitNames d' -> d = d'.
Proof. destruct d, d'; simpl; intros H; first [reflexivity|discriminate H]. Qed.

Lemma ocean_entries_In (t : Traits) (kv : Dim * Q) :
  In kv (Personality.ocean_entries t) <-> snd kv = tget (fst kv) t.
Proof.
  unfold Personality.ocean_entries. rewrite in_map_iff. split.
  - intros (d & <- & _). reflexivity.
  - destruct kv as [d v]. simpl. intros ->. exists d. split; [reflexivity|].
    destruct d; simpl; tauto.
Qed.

Lemma selected_trait_names (keep : Dim * Q -> bool) (t : Traits) (d : Dim) :
  Personality.traitNames d
    ∈ map (fun kv => Personality.traitNames (fst kv))
        (List.filter keep (Personality.ocean_entries t))
  <-> keep (d, tget d t) = true.
Proof.
  rewrite list_elem_of_In, in_map_iff. split.
  - intros ([d' v] & Hname & Hin). simpl in Hname. apply traitNames_inj in Hname.
    subst d'. apply filter_In in Hin as [Hin Hkeep].
    apply ocean_entries_In in Hin. simpl in Hin. now subst v.
  - intros Hkeep. exists (d, tget d t). split; [reflexivity|].
    apply filter_In. split; [|exact Hkeep]. now apply ocean_entries_In.
Qed.

(** X6. [generateSummary] returns for every engine and every enumeration of
    the counters.  Its MBTI entry and stress level are those of the engine;
    a dimension's name is among the high traits exactly when its value is
    at least 65 and among the low traits exactly when its value is at most
    35, so no name is in both; a high trait has level "High" or "Very
    High" and a low trait "Very Low" or "Low". *)
Theorem generateSummary_traits
    (Object_entries : gmap string nat -> list (string * nat))
    (pe : PersonalityEngine) :
  exists summary : Personality.Summary,
    Personality.generateSummary Object_entries pe = Some summary
    /\ Personality.summary_mbti summary = Personality.getMBTIDescription pe
    /\ Personality.stressLevel summary = stress pe
    /\ forall d : Dim,
         let name := Personality.traitNames d in
         let level := Personality.getTraitLevel (dim_key d) pe in
         (name ∈ Personality.highTraits summary <-> 65 <= tget d (ocean pe))
         /\ (name ∈ Personality.lowTraits summary <-> tget d (ocean pe) <= 35)
         /\ ~ (name ∈ Personality.highTraits summary
               /\ name ∈ Personality.lowTraits summary)
         /\ (name ∈ Personality.highTraits summary ->
             level = "High" \/ level = "Very High")
         /\ (name ∈ Personality.lowTraits summary ->
             level = "Very Low" \/ level = "Low").
Proof.
  unfold Personality.generateSummary.
  destruct (deriveEnneagram_returns pe) as [enneagram ->].
  eexists. split; [reflexivity|].
  cbn [Personality.summary_mbti Personality.stressLevel Personality.highTraits
       Personality.lowTraits].
  split; [reflexivity|]. split; [reflexivity|].
  intros d. set (name := Personality.traitNames d).
  set (level := Personality.getTraitLevel (dim_key d) pe).
  assert (Hhigh : name ∈ map (fun kv => Personality.traitNames (fst kv))
                    (List.filter (fun kv => js_ge (snd kv) 65)
                       (Personality.ocean_entries (ocean pe)))
                  <-> 65 <= tget d (ocean pe)).
  { unfold name. rewrite selected_trait_names. simpl. apply js_ge_spec. }
  assert (Hlow : name ∈ map (fun kv => Personality.traitNames (fst kv))
                   (List.filter (fun kv => js_le (snd kv) 35)
                      (Personality.ocean_entries (ocean pe)))
                 <-> tget d (ocean pe) <= 35).
  { unfold name. rewrite selected_trait_names. simpl. apply Qle_bool_iff. }
  destruct (trait_level_bands d pe) as (Hvl & Hl & _ & Hh & Hvh).
  fold level in Hvl, Hl, Hh, Hvh.
  rewrite Hhigh, Hlow. repeat split; try tauto.
  - intros [H1 H2]. lra.
  - intros Hv. destruct (Qlt_le_dec (tget d (ocean pe)) 75).
    + left. apply Hh. lra.
    + right. apply Hvh. lra.
  - intros Hv. destruct (Qlt_le_dec (tget d (ocean pe)) 25).
    + left. apply Hvl. lra.
    + right. apply Hl. lra.
Qed.

End Descriptions.

(** ** updateStage and processChoice in general *)

Section Progression.

(** X7. After [updateStage] the stage is a key of the table [stages], so
    its label can always be read; for an age from 15 to 80 the stage is the
    one band of the table that contains the age; nothing but the stage is
    changed. *)
Theorem updateStage_agrees_with_stages (es : EventSystem) :
  let es' := Events.updateStage es in
  stage_matches_age es'
  /\ is_Some (prop_get (currentStage es') Events.stages)
  /\ (forall name band,
        In (name, band) Events.stages ->
        (Events.stage_min band <= currentAge es <= Events.stage_max band)%Z ->
        name = currentStage es')
  /\ ((15 <= currentAge es <= 80)%Z ->
      exists band, prop_get (currentStage es') Events.stages = Some band
        /\ (Events.stage_min band <= currentAge es <= Events.stage_max band)%Z)
  /\ currentAge es' = currentAge es
  /\ scenarios es' = scenarios es
  /\ eventHistory es' = eventHistory es
  /\ availableScenarios es' = availableScenarios es.
Proof.
  intros es'. subst es'. unfold stage_matches_age, Events.updateStage.
  cbn [currentAge currentStage scenarios eventHistory availableScenarios].
  assert (Hbands : forall name band,
             In (name, band) Events.stages ->
             (name = "early" /\ Events.stage_min band = 15%Z /\ Events.stage_max band = 25%Z)
             \/ (name = "mid" /\ Events.stage_min band = 26%Z /\ Events.stage_max band = 50%Z)
             \/ (name = "later" /\ Events.stage_min band = 51%Z /\ Events.stage_max band = 80%Z)).
  { intros name band [H|[H|[H|[]]]]; inversion H; subst; simpl; auto. }
  destruct (Z.leb_spec (currentAge es) 25) as [H25|H25];
    [|destruct (Z.leb_spec (currentAge es) 50) as [H50|H50]].
  - split; [left; auto|]. split; [eexists; reflexivity|].
    split; [intros name band Hin Hage;
            destruct (Hbands name band Hin) as [(-> & ? & ?)|[(-> & ? & ?)|(-> & ? & ?)]];
            first [reflexivity|lia]|].
    split; [intros Hage; eexists; split; [reflexivity|simpl; lia]|].
    repeat split.
  - split; [right; left; split; [lia|reflexivity]|]. split; [eexists; reflexivity|].
    split; [intros name band Hin Hage;
            destruct (Hbands name band Hin) as [(-> & ? & ?)|[(-> & ? & ?)|(-> & ? & ?)]];
            first [reflexivity|lia]|].
    split; [intros Hage; eexists; split; [reflexivity|simpl; lia]|].
    repeat split.
  - split; [right; right; split; [lia|reflexivity]|]. split; [eexists; reflexivity|].
    split; [intros name band Hin Hage;
            destruct (Hbands name band Hin) as [(-> & ? & ?)|[(-> & ? & ?)|(-> & ? & ?)]];
            first [reflexivity|lia]|].
    split; [intros Hage; eexists; split; [reflexivity|simpl; lia]|].
    repeat split.
Qed.

Lemma applyWeights_untouched (weights : jsobj Q) (pe : PersonalityEngine) (d : Dim) :
  dim_key d ∉ map fst weights ->
  tget d (ocean (Personality.applyWeights weights pe)) = tget d (ocean pe).
Proof.
  unfold Personality.applyWeights. revert pe.
  induction weights as [|[k v] ws IH]; intros pe Hnot; simpl; [reflexivity|].
  simpl in Hnot. apply not_elem_of_cons in Hnot as [Hk Hws].
  rewrite IH by exact Hws.
  apply applyWeight_other. congruence.
Qed.

(** The engine [processChoice] leaves behind. *)
Lemma processChoice_engine (random : Q) (scenario : Scenario) (choice : Choice)
    (pe : PersonalityEngine) (es : EventSystem) :
  let pe' := snd (fst (Events.processChoice random scenario choice pe es)) in
  ocean pe' = ocean (match ocean_weights choice with
                     | Some weights => Personality.applyWeights weights pe
                     | None => pe
                     end)
  /\ confidence pe' = confidence (match ocean_weights choice with
                                  | Some weights => Personality.applyWeights weights pe
                                  | None => pe
                                  end)
  /\ stress pe' = match stress_delta choice with
                  | Some delta => Math.max 0 (Math.min 100 (stress pe + delta))
                  | None => stress pe
                  end
  /\ trajectoryTags pe' = match trajectory_tags choice with
                          | Some tags =>
                              fold_left Personality.addTrajectoryTag tags (trajectoryTags pe)
                          | None => trajectoryTags pe
                          end.
Proof.
  unfold Events.processChoice. cbn [fst snd].
  destruct (ocean_weights choice) as [weights|];
    destruct (stress_delta choice) as [delta|];
    destruct (trajectory_tags choice) as [tags|]; cbn;
    try destruct (applyWeights_stress weights pe) as [-> ->];
    repeat split.
Qed.

Lemma ocean_changes_lookup (before after : Traits) (d : Dim) :
  prop_get (dim_key d) (Events.ocean_changes before after)
  = if js_neq0 (tget d after - tget d before)
    then Some (tget d after - tget d before)
    else None.
Proof.
  unfold Events.ocean_changes. cbn [fold_left all_dims].
  destruct (js_neq0 (tget DimO after - tget DimO before)) eqn:HO,
    (js_neq0 (tget DimC after - tget DimC before)) eqn:HC,
    (js_neq0 (tget DimE after - tget DimE before)) eqn:HE,
    (js_neq0 (tget DimA after - tget DimA before)) eqn:HA,
    (js_neq0 (tget DimN after - tget DimN before)) eqn:HN;
    destruct d; cbn [app]; rewrite ?HO, ?HC, ?HE, ?HA, ?HN; reflexivity.
Qed.

Lemma ocean_changes_filter (before after : Traits) :
  Events.ocean_changes before after
  = map (fun d => (dim_key d, tget d after - tget d before))
      (List.filter (fun d => js_neq0 (tget d after - tget d before)) all_dims).
Proof.
  unfold Events.ocean_changes. cbn [fold_left all_dims List.filter].
  destruct (js_neq0 (tget DimO after - tget DimO before)),
    (js_neq0 (tget DimC after - tget DimC before)),
    (js_neq0 (tget DimE after - tget DimE before)),
    (js_neq0 (tget DimA after - tget DimA before)),
    (js_neq0 (tget DimN after - tget DimN before)); reflexivity.
Qed.

End Progression.

(** ** What processChoice records and how a session advances *)

Section Resolution.

Lemma js_neq0_spec (a : Q) : js_neq0 a = true <-> ~ a == 0.
Proof.
  split.
  - intros H Hz. rewrite (js_neq0_false a Hz) in H. discriminate.
  - apply js_neq0_true.
Qed.

Lemma processChoice_event (random : Q) (scenario : Scenario) (choice : Choice)
    (pe : PersonalityEngine) (es : EventSystem) :
  let result := Events.processChoice random scenario choice pe es in
  let event := fst (fst result) in
  let pe' := snd (fst result) in
  oceanBefore event = ocean pe /\ stressBefore event = stress pe
  /\ oceanAfter event = ocean pe' /\ stressAfter event = stress pe'
  /\ oceanChanges event = Events.ocean_changes (ocean pe) (ocean pe')
  /\ scenarioId event = scenario_id scenario /\ title event = scenario_title scenario
  /\ choiceId event = choice_id choice /\ choiceTitle event = choice_title choice
  /\ outcome event = choice_outcome choice
  /\ age event = currentAge es /\ stage event = currentStage es.
Proof.
  unfold Events.processChoice. cbn [fst snd]. cbv zeta.
  cbn [oceanBefore stressBefore oceanAfter stressAfter oceanChanges scenarioId title
       choiceId choiceTitle outcome age stage].
  rewrite !spread_id. repeat split.
Qed.

(** X8. The record [processChoice] returns holds the vector and the stress
    of the engine before and after the choice, and the age and stage before
    it.  Its [oceanChanges] has, for each dimension whose value differs,
    the difference after minus before, and no other key; every key of it is
    a key of the choice's weight map. *)
Theorem processChoice_records (random : Q) (scenario : Scenario) (choice : Choice)
    (pe : PersonalityEngine) (es : EventSystem) :
  let result := Events.processChoice random scenario choice pe es in
  let event := fst (fst result) in
  let pe' := snd (fst result) in
  oceanBefore event = ocean pe /\ stressBefore event = stress pe
  /\ oceanAfter event = ocean pe' /\ stressAfter event = stress pe'
  /\ age event = currentAge es /\ stage event = currentStage es
  /\ (forall d c,
        prop_get (dim_key d) (oceanChanges event) = Some c
        <-> c = tget d (ocean pe') - tget d (ocean pe) /\ ~ c == 0)
  /\ distinct_keys (oceanChanges event)
  /\ (forall k, k ∈ map fst (oceanChanges event) ->
        exists d weights,
          k = dim_key d /\ ocean_weights choice = Some weights /\ k ∈ map fst weights).
Proof.
  intros result event pe'.
  destruct (processChoice_event random scenario choice pe es)
    as (Hb & Hsb & Ha & Hsa & Hchanges & _ & _ & _ & _ & _ & Hage & Hstage).
  fold result in Hb, Hsb, Ha, Hsa, Hchanges, Hage, Hstage.
  fold event in Hb, Hsb, Ha, Hsa, Hchanges, Hage, Hstage. fold pe' in Ha, Hsa, Hchanges.
  repeat (split; [assumption|]). rewrite Hchanges. split; [|split].
  - intros d c. rewrite ocean_changes_lookup.
    destruct (js_neq0 (tget d (ocean pe') - tget d (ocean pe))) eqn:Hne.
    + apply js_neq0_spec in Hne. split.
      * intros [= <-]. split; [reflexivity|exact Hne].
      * intros [-> _]. reflexivity.
    + split; [discriminate|]. intros [-> Hc].
      apply js_neq0_spec in Hc. congruence.
  - unfold distinct_keys, Events.ocean_changes. cbn [fold_left all_dims].
    destruct (js_neq0 (tget DimO (ocean pe') - tget DimO (ocean pe))),
      (js_neq0 (tget DimC (ocean pe') - tget DimC (ocean pe))),
      (js_neq0 (tget DimE (ocean pe') - tget DimE (ocean pe))),
      (js_neq0 (tget DimA (ocean pe') - tget DimA (ocean pe))),
      (js_neq0 (tget DimN (ocean pe') - tget DimN (ocean pe)));
      cbn [app map fst dim_key]; apply (bool_decide_unpack _); reflexivity.
  - intros k Hk. rewrite ocean_changes_filter, map_map in Hk. cbn [fst] in Hk.
    apply list_elem_of_In, in_map_iff in Hk as (d & <- & Hd).
    apply filter_In in Hd as [_ Hne]. apply js_neq0_spec in Hne.
    destruct (processChoice_engine random scenario choice pe es) as (Ho & _).
    fold result in Ho. fold pe' in Ho.
    destruct (ocean_weights choice) as [weights|].
    + exists d, weights. split; [reflexivity|]. split; [reflexivity|].
      destruct (decide (dim_key d ∈ map fst weights)) as [Hin|Hnot]; [exact Hin|].
      exfalso. apply Hne. rewrite Ho, (applyWeights_untouched weights pe d Hnot). ring.
    + exfalso. apply Hne. rewrite Ho. ring.
Qed.


Lemma updateStage_matches (es : EventSystem) : stage_matches_age (Events.updateStage es).
Proof.
  unfold stage_matches_age, Events.updateStage. cbn [currentAge currentStage].
  destruct (Z.leb_spec (currentAge es) 25) as [H25|H25];
    [|destruct (Z.leb_spec (currentAge es) 50) as [H50|H50]].
  - left. auto.
  - right; left. split; [lia|reflexivity].
  - right; right. split; [lia|reflexivity].
Qed.

Lemma processChoice_system (random : Q) (scenario : Scenario) (choice : Choice)
    (pe : PersonalityEngine) (es : EventSystem) :
  let result := Events.processChoice random scenario choice pe es in
  let es' := snd result in
  eventHistory es' = (eventHistory es ++ [fst (fst result)])%list
  /\ scenarios es' = scenarios es
  /\ availableScenarios es' = availableScenarios es
  /\ trajectoryDescriptions es' = trajectoryDescriptions es
  /\ globalModifiers es' = globalModifiers es
  /\ stage_matches_age es'
  /\ exists es0,
       currentStage es0 = currentStage es
       /\ currentAge es' = (currentAge es + Events.calculateAgeAdvance random es0)%Z.
Proof.
  unfold Events.processChoice. cbn [fst snd]. cbv zeta.
  split; [reflexivity|]. split; [reflexivity|]. split; [reflexivity|].
  split; [reflexivity|]. split; [reflexivity|].
  split; [apply updateStage_matches|].
  eexists. split; [|reflexivity]. reflexivity.
Qed.



End Resolution.

(** ** Sessions *)

Section Sessions.

Lemma processChoice_healthy (random : Q) (scenario : Scenario) (choice : Choice)
    (pe : PersonalityEngine) (es : EventSystem) :
  healthy pe ->
  healthy (snd (fst (Events.processChoice random scenario choice pe es))).
Proof.
  intros [Hrange Hstress].
  destruct (processChoice_engine random scenario choice pe es) as (Ho & Hc & Hs & _).
  split.
  - intros d. rewrite Ho, Hc.
    destruct (ocean_weights choice) as [weights|]; [|apply Hrange].
    apply applyWeights_in_range, Hrange.
  - rewrite Hs. destruct (stress_delta choice) as [delta|]; [|exact Hstress].
    apply clamp_bounds. lra.
Qed.

(** X10. Through any session of resolved choices, whatever the scenarios,
    choices and draws, an engine whose traits, confidence bands and stress
    are in range stays so: traits within 0 and 100, confidence bands within
    5 and 100, stress within 0 and 100. *)
Theorem play_keeps_healthy (steps : list (Q * Scenario * Choice))
    (pe : PersonalityEngine) (es : EventSystem) :
  healthy pe -> healthy (fst (play steps (pe, es))).
Proof.
  revert pe es. induction steps as [|[[random scenario] choice] steps IH];
    intros pe es H; [exact H|].
  unfold play. cbn [fold_left fst snd]. apply IH.
  apply processChoice_healthy, H.
Qed.

(** The initial engine through two choices, as an input of X10. *)
Lemma play_keeps_healthy_witness :
  let scenario := mkScenario "exam" "The exam" "Finals are near." "early" (Some (15, 25)%Z)
                    (Some ["school"]) [] None in
  let study := mkChoice "study" "Study hard" "Stay in." "You passed."
                 (Some [("C", 80)]) (Some (-50)) (Some ["discipline"]) in
  let steps := [(0.5, scenario, study); (0.1, scenario, study)] in
  healthy Personality.initial
  /\ healthy (fst (play steps (Personality.initial, Events.initial))).
Proof.
  intros scenario study steps.
  assert (H : healthy Personality.initial).
  { split; [apply initial_in_range|]. simpl. lra. }
  split; [exact H|].
  apply (play_keeps_healthy steps Personality.initial Events.initial H).
Defined.



End Sessions.

(** ** Refreshing, loading and resetting *)

Section Catalogue.

Lemma Array_filter_sublist {A} (callback : A -> completion bool) (l kept : list A) :
  Events.Array_filter callback l = Normal kept -> kept `sublist_of` l.
Proof.
  revert kept. induction l as [|x l IH]; simpl; intros kept H.
  - injection H as <-. constructor.
  - destruct (callback x) as [keep|]; [|discriminate H]. simpl in H.
    destruct (Events.Array_filter callback l) as [rest|]; [|discriminate H].
    simpl in H. injection H as <-.
    destruct keep; [apply sublist_skip|apply sublist_cons]; apply IH; reflexivity.
Qed.

Lemma refresh_ignores_stale (stale : list Scenario) (es : EventSystem) :
  Events.refreshAvailableScenarios (Events.set_availableScenarios stale es)
  = match Events.refreshAvailableScenarios es with
    | Normal es1 => Normal (Events.set_availableScenarios (availableScenarios es1) es)
    | TypeError message => TypeError message
    end.
Proof.
  unfold Events.refreshAvailableScenarios. cbn [scenarios eventHistory Events.set_availableScenarios].
  destruct (scenarios es) as [l|]; [|reflexivity].
  replace (Events.available (Events.set_availableScenarios stale es))
    with (Events.available es) by reflexivity.
  destruct (Events.Array_filter _ l) as [kept|]; reflexivity.
Qed.

Lemma refresh_settles (es es1 : EventSystem) :
  Events.refreshAvailableScenarios es = Normal es1 ->
  es1 = Events.set_availableScenarios (availableScenarios es1) es
  /\ availableScenarios es1 `sublist_of` catalogue_entries es
  /\ (forall stale,
        Events.refreshAvailableScenarios (Events.set_availableScenarios stale es)
        = Normal es1)
  /\ Events.refreshAvailableScenarios es1 = Normal es1.
Proof.
  intros Href.
  assert (Hshape : es1 = Events.set_availableScenarios (availableScenarios es1) es
                   /\ availableScenarios es1 `sublist_of` catalogue_entries es).
  { unfold Events.refreshAvailableScenarios, catalogue_entries in *.
    destruct (scenarios es) as [l|]; [|discriminate Href].
    destruct (Events.Array_filter _ l) as [kept|] eqn:Hkept; [|discriminate Href].
    simpl in Href. injection Href as <-. split; [reflexivity|].
    simpl. eapply Array_filter_sublist, Hkept. }
  destruct Hshape as [Heq Hsub]. split; [exact Heq|]. split; [exact Hsub|].
  assert (Hstale : forall stale,
             Events.refreshAvailableScenarios (Events.set_availableScenarios stale es)
             = Normal es1).
  { intros stale. rewrite refresh_ignores_stale, Href. now rewrite <- Heq. }
  split; [exact Hstale|]. rewrite Heq at 1. apply Hstale.
Qed.

(** X12. When [refreshAvailableScenarios] returns, it has changed nothing
    but the available list, which is then a sublist of the catalogue in
    catalogue order; the outcome does not depend on the list held before,
    and refreshing again changes nothing. *)
Theorem refreshAvailableScenarios_settles (es es1 : EventSystem) :
  Events.refreshAvailableScenarios es = Normal es1 ->
  es1 = Events.set_availableScenarios (availableScenarios es1) es
  /\ availableScenarios es1 `sublist_of` catalogue_entries es
  /\ (forall stale,
        Events.refreshAvailableScenarios (Events.set_availableScenarios stale es)
        = Normal es1)
  /\ Events.refreshAvailableScenarios es1 = Normal es1.
Proof. apply refresh_settles. Qed.

(** A three-entry catalogue in mid life, with one entry already resolved
    and a stale available list, as an input of X12: only the job offer
    stays available, whatever list was held before. *)
Lemma refreshAvailableScenarios_settles_witness :
  let exam := mkScenario "exam" "The exam" "Finals are near." "early" (Some (15, 25)%Z)
                (Some ["school"]) [] None in
  let job := mkScenario "job" "A job offer" "An offer arrives." "mid" (Some (26, 50)%Z)
               (Some ["career"]) [] None in
  let trip := mkScenario "trip" "A long trip" "A friend invites you." "any" (Some (15, 90)%Z)
                (Some ["travel"]) [] None in
  let went := mkEvent "trip" "A long trip" "go" "Go" 24 "early" "You went."
                (mkTraits 50 50 50 50 50) 30 (mkTraits 55 50 50 50 50) 25 [("O", 5)] in
  let es := mkEventSystem (Some [exam; job; trip]) 30 "mid" [went] [exam; trip] None None in
  let es1 := Events.set_availableScenarios [job] es in
  Events.refreshAvailableScenarios es = Normal es1
  /\ availableScenarios es1 `sublist_of` catalogue_entries es
  /\ Events.refreshAvailableScenarios (Events.set_availableScenarios [trip; job; exam] es)
     = Normal es1
  /\ Events.refreshAvailableScenarios es1 = Normal es1.
Proof.
  intros exam job trip went es es1.
  assert (H : Events.refreshAvailableScenarios es = Normal es1) by reflexivity.
  split; [exact H|].
  destruct (refreshAvailableScenarios_settles es es1 H) as (_ & Hsub & Hstale & Hagain).
  split; [exact Hsub|]. split; [exact (Hstale [trip; job; exam])|exact Hagain].
Defined.

(** X13. After a choice is resolved, refreshing (with a catalogue whose
    entries all have an age range) returns, and no available scenario has
    the identifier of the scenario just resolved, nor of any scenario of
    the history. *)
Theorem resolved_scenario_not_available (random : Q) (scenario : Scenario)
    (choice : Choice) (pe : PersonalityEngine) (es : EventSystem) :
  complete_catalogue es ->
  exists es2,
    Events.refreshAvailableScenarios
      (snd (Events.processChoice random scenario choice pe es)) = Normal es2
    /\ eventHistory es2
       = (eventHistory es ++ [fst (fst (Events.processChoice random scenario choice pe es))])%list
    /\ forall sc, sc ∈ availableScenarios es2 ->
         scenario_id sc <> scenario_id scenario
         /\ forall event, event ∈ eventHistory es2 -> scenarioId event <> scenario_id sc.
Proof.
  intros Hwf.
  destruct (processChoice_system random scenario choice pe es) as (Hh & Hs & _).
  destruct (processChoice_event random scenario choice pe es)
    as (_ & _ & _ & _ & _ & Hid & _).
  set (result := Events.processChoice random scenario choice pe es) in *.
  cbv zeta in Hh, Hs, Hid.
  destruct (refreshAvailableScenarios_complete (snd result)) as (avail & Href & Havail).
  { unfold complete_catalogue. rewrite Hs. exact Hwf. }
  eexists. split; [exact Href|]. cbn [eventHistory availableScenarios Events.set_availableScenarios].
  split; [exact Hh|].
  intros sc Hsc. apply Havail in Hsc as [_ (Hunused & _)].
  assert (Hall : forall event, event ∈ eventHistory (snd result) ->
                               scenarioId event <> scenario_id sc).
  { intros event Hevent Heq. apply Hunused. rewrite <- Heq.
    apply list_elem_of_In, in_map, list_elem_of_In, Hevent. }
  split; [|exact Hall].
  intros Heq. apply (Hall (fst (fst result))); [|congruence].
  rewrite Hh. apply elem_of_app. right. apply list_elem_of_singleton. reflexivity.
Qed.

(** A one-entry catalogue whose entry is resolved, as an input of X13. *)
Lemma resolved_scenario_not_available_witness :
  let scenario := mkScenario "exam" "The exam" "Finals are near." "early" (Some (15, 25)%Z)
                    (Some ["school"]) [] None in
  let choice := mkChoice "study" "Study hard" "Stay in." "You passed." None None None in
  let es := mkEventSystem (Some [scenario]) 18 "early" [] [scenario] None None in
  complete_catalogue es
  /\ exists es2,
       Events.refreshAvailableScenarios
         (snd (Events.processChoice 0 scenario choice Personality.initial es)) = Normal es2
       /\ forall sc, sc ∈ availableScenarios es2 -> scenario_id sc <> "exam".
Proof.
  intros scenario choice es.
  assert (Hwf : complete_catalogue es).
  { exists [scenario]. split; [reflexivity|]. repeat constructor. eexists. reflexivity. }
  split; [exact Hwf|].
  destruct (resolved_scenario_not_available 0 scenario choice Personality.initial es Hwf)
    as (es2 & Href & _ & H).
  exists es2. split; [exact Href|]. intros sc Hsc. apply (H sc Hsc).
Defined.

(** X14. [loadScenarios] reports success exactly when a document was read
    and refreshing availability on it did not raise.  It then holds the
    document's scenario list and tables with an up-to-date available list,
    and age, stage and history are as before.  A document whose scenario
    list is an array of entries that all have an age range always loads,
    and the available list is then the eligible entries of that array. *)
Theorem loadScenarios_success (response : Fetched) (es : EventSystem) :
  let es' := snd (Events.loadScenarios response es) in
  (fst (Events.loadScenarios response es) = true ->
   exists data,
     response = Parsed (Some data)
     /\ scenarios es' = data_scenarios data
     /\ trajectoryDescriptions es' = data_trajectory_descriptions data
     /\ globalModifiers es' = data_global_modifiers data
     /\ currentAge es' = currentAge es
     /\ currentStage es' = currentStage es
     /\ eventHistory es' = eventHistory es
     /\ Events.refreshAvailableScenarios es' = Normal es')
  /\ (forall data l,
        response = Parsed (Some data) ->
        data_scenarios data = Some l ->
        Forall (fun sc => is_Some (age_range sc)) l ->
        fst (Events.loadScenarios response es) = true
        /\ forall sc, sc ∈ availableScenarios es' <-> sc ∈ l /\ eligible es sc).
Proof.
  intros es'. subst es'. split.
  - destruct response as [| |[data|]]; simpl; try discriminate.
    match goal with |- context [Events.refreshAvailableScenarios ?e] =>
      set (es1 := e); destruct (Events.refreshAvailableScenarios es1) as [es2|message] eqn:Href end;
      simpl; [|discriminate].
    intros _. exists data. split; [reflexivity|].
    destruct (refresh_settles es1 es2 Href) as (Heq & _ & _ & Hagain).
    rewrite Heq. cbn. repeat split. rewrite <- Heq. exact Hagain.
  - intros data l -> Hl Hall. simpl.
    match goal with |- context [Events.refreshAvailableScenarios ?e] =>
      set (es1 := e) end.
    destruct (refreshAvailableScenarios_complete es1) as (avail & Href & Havail).
    { exists l. split; [exact Hl|exact Hall]. }
    rewrite Href. simpl. split; [reflexivity|].
    intros sc. rewrite Havail. unfold catalogue_entries, es1. simpl. rewrite Hl.
    reflexivity.
Qed.

End Catalogue.

(** ** reset, selectNextScenario, getReflectionPrompt and getTimeline *)

Section Selection.

(** X15. With a catalogue whose entries all have an age range, [reset]
    returns an engine aged 18 in stage early with an empty history and the
    same catalogue and tables; the available scenarios are then the
    catalogue entries for stage "any" or "early" whose age range contains
    18, whatever was resolved before; resetting again changes nothing. *)
Theorem reset_forgets_progress (es : EventSystem) :
  complete_catalogue es ->
  exists fresh,
    Events.reset es = Normal fresh
    /\ currentAge fresh = 18%Z /\ currentStage fresh = "early"
    /\ eventHistory fresh = []
    /\ scenarios fresh = scenarios es
    /\ trajectoryDescriptions fresh = trajectoryDescriptions es
    /\ globalModifiers fresh = globalModifiers es
    /\ (forall sc, sc ∈ availableScenarios fresh
          <-> sc ∈ catalogue_entries es
              /\ (life_stage sc = "any" \/ life_stage sc = "early")
              /\ exists minAge maxAge,
                   age_range sc = Some (minAge, maxAge) /\ (minAge <= 18 <= maxAge)%Z)
    /\ Events.reset fresh = Normal fresh.
Proof.
  intros Hwf. unfold Events.reset at 1.
  match goal with |- context [Events.refreshAvailableScenarios ?e] => set (e0 := e) end.
  destruct (refreshAvailableScenarios_complete e0 Hwf) as (avail & Href & Havail).
  exists (Events.set_availableScenarios avail e0).
  split; [exact Href|]. repeat (split; [reflexivity|]). split.
  - intros sc. cbn [availableScenarios Events.set_availableScenarios].
    rewrite Havail. unfold eligible, catalogue_entries. simpl.
    split; [tauto|]. intros (? & ? & ?). split; [assumption|].
    split; [apply not_elem_of_nil|tauto].
  - destruct (refresh_settles e0 _ Href) as (_ & _ & Hstale & _).
    exact (Hstale avail).
Qed.

(** A one-entry catalogue after one resolved choice, as an input of X15. *)
Lemma reset_forgets_progress_witness :
  let scenario := mkScenario "exam" "The exam" "Finals are near." "early" (Some (15, 25)%Z)
                    (Some ["school"]) [] None in
  let choice := mkChoice "study" "Study hard" "Stay in." "You passed." None None None in
  let es := snd (Events.processChoice 0 scenario choice Personality.initial
                   (mkEventSystem (Some [scenario]) 18 "early" [] [scenario] None None)) in
  complete_catalogue es
  /\ exists fresh, Events.reset es = Normal fresh /\ scenario ∈ availableScenarios fresh.
Proof.
  intros scenario choice es.
  assert (Hwf : complete_catalogue es).
  { exists [scenario]. split; [reflexivity|]. repeat constructor. eexists. reflexivity. }
  split; [exact Hwf|].
  destruct (reset_forgets_progress es Hwf) as (fresh & Hreset & _ & _ & _ & _ & _ & _ & Havail & _).
  exists fresh. split; [exact Hreset|]. apply Havail.
  split; [left|split; [right; reflexivity|exists 15%Z, 25%Z; split; [reflexivity|lia]]].
Defined.

Lemma floor_index (random : Q) (n : nat) :
  unit_draw random -> (0 < n)%nat ->
  (0 <= Math.floor (random * inject_Z (Z.of_nat n)) < Z.of_nat n)%Z.
Proof.
  intros [H0 H1] Hn. unfold Math.floor.
  assert (Hpos : 0 < inject_Z (Z.of_nat n)).
  { change 0 with (inject_Z 0). rewrite <- Zlt_Qlt. lia. }
  split.
  - change 0%Z with (Qfloor 0). apply Qfloor_resp_le.
    apply Qmult_le_0_compat; lra.
  - rewrite Zlt_Qlt. eapply Qle_lt_trans; [apply Qfloor_le|].
    rewrite <- (Qmult_1_l (inject_Z (Z.of_nat n))) at 2.
    apply Qmult_lt_compat_r; assumption.
Qed.

Lemma Array_get_in_range {A} (l : list A) (i : Z) :
  (0 <= i < Z.of_nat (length l))%Z -> exists x, Array_get l i = Some x /\ x ∈ l.
Proof.
  intros Hi. unfold Array_get.
  destruct (Z.ltb_spec i 0) as [?|_]; [lia|].
  destruct (lookup_lt_is_Some_2 l (Z.to_nat i)) as [x Hx]; [lia|].
  exists x. split; [exact Hx|]. eapply list_elem_of_lookup_2, Hx.
Qed.

Lemma Array_map_returns {A B} (callback : nat -> A -> completion B) (l : list A) (n : nat) :
  (forall i x, x ∈ l -> exists y, callback i x = Normal y) ->
  exists ys,
    Events.Array_map callback n l = Normal ys
    /\ length ys = length l
    /\ (forall y, y ∈ ys -> exists i x, x ∈ l /\ callback i x = Normal y).
Proof.
  revert n. induction l as [|x l IH]; intros n Hall.
  - exists []. split; [reflexivity|]. split; [reflexivity|]. intros y Hy. inversion Hy.
  - destruct (Hall n x) as [y Hy]; [left|].
    destruct (IH (S n)) as (ys & Hys & Hlen & Hfrom).
    { intros i x' Hx'. apply Hall. right. exact Hx'. }
    exists (y :: ys). cbn [Events.Array_map]. rewrite Hy. unfold mbind, completion_bind.
    rewrite Hys. split; [reflexivity|]. split; [simpl; now rewrite Hlen|].
    intros y' Hy'. apply elem_of_cons in Hy' as [->|Hy'].
    + exists n, x. split; [left|exact Hy].
    + destruct (Hfrom y' Hy') as (i & x' & Hx' & Hcall).
      exists i, x'. split; [right; exact Hx'|exact Hcall].
Qed.

Lemma Array_map_raises {A B} (callback : nat -> A -> completion B) (l : list A) (n : nat)
    (x : A) :
  x ∈ l -> (forall i, exists message, callback i x = TypeError message) ->
  exists message, Events.Array_map callback n l = TypeError message.
Proof.
  intros Hx Hraise. revert n. induction Hx as [x l|x x' l _ IH]; intros n; cbn [Events.Array_map].
  - destruct (Hraise n) as [message ->]. exists message. reflexivity.
  - destruct (callback n x') as [y|message]; [|exists message; reflexivity].
    destruct (IH Hraise (S n)) as [message ->]. exists message. reflexivity.
Qed.

(** X16. With a catalogue whose entries all have an age range and draws
    that are at least 0 and below 1, [selectNextScenario] first refreshes
    availability, which returns.  If every eligible entry of the catalogue
    has context tags, it returns: it answers [null] exactly when no
    catalogue entry is eligible, and otherwise a catalogue entry that is
    eligible for the current age, stage and history, whatever the tag
    counts and their enumeration.  If some eligible entry has no context
    tags, it raises. *)
Theorem selectNextScenario_picks_eligible
    (Object_entries : gmap string nat -> list (string * nat))
    (random : nat -> Q) (pe : PersonalityEngine) (es : EventSystem) :
  complete_catalogue es ->
  (forall n, unit_draw (random n)) ->
  exists es1,
    Events.refreshAvailableScenarios es = Normal es1
    /\ ((forall sc, sc ∈ catalogue_entries es -> eligible es sc -> is_Some (context_tags sc)) ->
        exists answer,
          Events.selectNextScenario Object_entries random pe es = Normal (answer, es1)
          /\ match answer with
             | None => forall sc, sc ∈ catalogue_entries es -> ~ eligible es sc
             | Some sc =>
                 sc ∈ availableScenarios es1 /\ sc ∈ catalogue_entries es /\ eligible es sc
             end)
    /\ ((exists sc, sc ∈ catalogue_entries es /\ eligible es sc /\ context_tags sc = None) ->
        exists message,
          Events.selectNextScenario Object_entries random pe es = TypeError message).
Proof.
  intros Hwf Hdraws.
  destruct (refreshAvailableScenarios_complete es Hwf) as (avail & Href & Havail).
  eexists. split; [exact Href|].
  unfold Events.selectNextScenario. rewrite Href.
  unfold mbind, completion_bind.
  cbn [availableScenarios Events.set_availableScenarios].
  split.
  - intros Htagged.
    destruct avail as [|first rest] eqn:Havl.
    { exists None. split; [reflexivity|].
      intros sc Hsc Hel. apply (elem_of_nil sc). apply Havail. auto. }
    rewrite <- Havl in *.
    assert (Hlen : (0 < length avail)%nat) by (rewrite Havl; simpl; lia).
    destruct (Nat.eqb_spec (length avail) 0) as [?|_]; [lia|].
    cbv zeta.
    match goal with |- context [Events.Array_map ?cb 0%nat avail] =>
      destruct (Array_map_returns cb avail 0%nat) as (weighted & -> & Hwlen & Hfrom) end.
    { intros i sc Hsc. apply Havail in Hsc as [Hcat Hel].
      destruct (Htagged sc Hcat Hel) as [tags Htags].
      unfold Events.scenario_weight. rewrite Htags. eexists. reflexivity. }
    set (sorted := Personality.Array_sort _ weighted).
    set (top := take (Nat.min 3 (length sorted)) sorted).
    assert (Hsorted : length sorted = length avail).
    { unfold sorted. rewrite Array_sort_length. exact Hwlen. }
    assert (Htop : (0 < length top)%nat).
    { unfold top. rewrite length_take. lia. }
    destruct (Array_get_in_range top
                (Math.floor (random (length avail) * inject_Z (Z.of_nat (length top)))))
      as ([sc w] & Hget & Hin).
    { apply floor_index; [apply Hdraws|exact Htop]. }
    rewrite Hget. exists (Some sc). split; [reflexivity|].
    cbn [availableScenarios Events.set_availableScenarios fst].
    assert (Hsc : sc ∈ avail).
    { apply subseteq_take in Hin. unfold sorted in Hin. rewrite Array_sort_perm in Hin.
      destruct (Hfrom _ Hin) as (i & x & Hx & Hcall).
      unfold Events.scenario_weight in Hcall.
      destruct (context_tags x); [|discriminate Hcall].
      injection Hcall as -> _. exact Hx. }
    split; [exact Hsc|]. apply Havail, Hsc.
  - intros (sc & Hcat & Hel & Hnone).
    assert (Hsc : sc ∈ avail) by (apply Havail; auto).
    destruct (Nat.eqb_spec (length avail) 0) as [Hzero|_].
    { destruct avail; [inversion Hsc|discriminate Hzero]. }
    cbv zeta.
    match goal with |- context [Events.Array_map ?cb 0%nat avail] =>
      destruct (Array_map_raises cb avail 0%nat sc Hsc) as [message ->] end.
    { intros i. unfold Events.scenario_weight. rewrite Hnone. eexists. reflexivity. }
    exists message. reflexivity.
Qed.

(** A three-entry catalogue, two of whose entries are eligible, with an
    engine that has a dominant tag, as an input of X16. *)
Lemma selectNextScenario_picks_eligible_witness :
  let exam := mkScenario "exam" "The exam" "Finals are near." "early" (Some (15, 25)%Z)
                (Some ["school"]) [] None in
  let job := mkScenario "job" "A job offer" "An offer arrives." "mid" (Some (26, 50)%Z)
               (Some ["career"]) [] None in
  let trip := mkScenario "trip" "A long trip" "A friend invites you." "any" (Some (15, 90)%Z)
                (Some ["travel"; "friends"]) [] None in
  let es := mkEventSystem (Some [exam; job; trip]) 18 "early" [] [] None None in
  let pe := Personality.addTrajectoryTags ["travel"] Personality.initial in
  complete_catalogue es
  /\ (forall n : nat, unit_draw 0.5)
  /\ exists es1,
       Events.selectNextScenario map_to_list (fun _ => 0.5) pe es = Normal (Some exam, es1)
       /\ availableScenarios es1 = [exam; trip].
Proof.
  intros exam job trip es pe.
  assert (Hwf : complete_catalogue es).
  { exists [exam; job; trip]. split; [reflexivity|]. repeat constructor; eexists; reflexivity. }
  assert (Hdraws : forall n : nat, unit_draw 0.5) by (intros _; split; [discriminate|reflexivity]).
  split; [exact Hwf|]. split; [exact Hdraws|].
  destruct (selectNextScenario_picks_eligible map_to_list (fun _ => 0.5) pe es Hwf Hdraws)
    as (es1 & Href & _ & _).
  exists es1. injection Href as <-. split; reflexivity.
Defined.

(** An eligible entry without context tags: [selectNextScenario] raises. *)
Example selectNextScenario_entry_without_context_tags :
  let exam := mkScenario "exam" "The exam" "Finals are near." "early" (Some (15, 25)%Z)
                None [] None in
  let es := mkEventSystem (Some [exam]) 18 "early" [] [] None None in
  Events.selectNextScenario map_to_list (fun _ => 0.5) Personality.initial es
  = TypeError "scenario.context_tags is undefined".
Proof. reflexivity. Qed.

(** X17. For a draw that is at least 0 and below 1, [getReflectionPrompt]
    answers [null] exactly when the scenario has no prompt list or an empty
    one, and otherwise one of the prompts of the list: the index it draws
    is never outside the list. *)
Theorem getReflectionPrompt_in_list (random : Q) (scenario : Scenario) :
  unit_draw random ->
  match Events.getReflectionPrompt random scenario with
  | Events.PromptNull =>
      reflection_prompts scenario = None \/ reflection_prompts scenario = Some []
  | Events.PromptUndefined => False
  | Events.PromptText text =>
      exists prompts, reflection_prompts scenario = Some prompts /\ text ∈ prompts
  end.
Proof.
  intros Hdraw. unfold Events.getReflectionPrompt.
  destruct (reflection_prompts scenario) as [prompts|]; [|left; reflexivity].
  destruct prompts as [|p prompts]; [right; reflexivity|].
  set (l := p :: prompts). cbn [length Nat.eqb]. cbv zeta.
  destruct (Array_get_in_range l (Math.floor (random * inject_Z (Z.of_nat (length l)))))
    as (text & Hget & Hin).
  { apply floor_index; [exact Hdraw|]. simpl. lia. }
  change (S (length prompts)) with (length l). rewrite Hget.
  exists l. split; [reflexivity|exact Hin].
Qed.

(** A scenario with two prompts and a draw of 0.9, as an input of X17. *)
Lemma getReflectionPrompt_in_list_witness :
  let scenario := mkScenario "exam" "The exam" "Finals are near." "early" (Some (15, 25)%Z)
                    (Some ["school"]) [] (Some ["What did it cost?"; "Would you do it again?"]) in
  unit_draw 0.9
  /\ Events.getReflectionPrompt 0.9 scenario <> Events.PromptUndefined.
Proof.
  intros scenario.
  assert (Hdraw : unit_draw 0.9) by (split; [discriminate|reflexivity]).
  split; [exact Hdraw|].
  pose proof (getReflectionPrompt_in_list 0.9 scenario Hdraw) as H.
  intros Hrun. rewrite Hrun in H. exact H.
Defined.

(** X18. The timeline has one entry per record of the history, in order;
    resolving a choice adds at its end the entry of that choice, with the
    age and stage before the choice, the scenario's title, and the title
    and outcome of the choice, and leaves the earlier entries as they were. *)
Theorem getTimeline_after_processChoice (random : Q) (scenario : Scenario)
    (choice : Choice) (pe : PersonalityEngine) (es : EventSystem) :
  length (Events.getTimeline es) = length (eventHistory es)
  /\ Events.getTimeline (snd (Events.processChoice random scenario choice pe es))
     = (Events.getTimeline es
        ++ [ Events.mkTimelineEntry (currentAge es) (currentStage es)
               (scenario_title scenario) (choice_title choice) (choice_outcome choice) ])%list.
Proof.
  split; [apply length_map|].
  destruct (processChoice_system random scenario choice pe es) as (Hh & _).
  destruct (processChoice_event random scenario choice pe es)
    as (_ & _ & _ & _ & _ & _ & Ht & _ & Hct & Ho & Hage & Hstage).
  cbv zeta in Hh, Ht, Hct, Ho, Hage, Hstage.
  unfold Events.getTimeline. rewrite Hh, map_app. cbn [map].
  rewrite Ht, Hct, Ho, Hage, Hstage. reflexivity.
Qed.

End Selection.

(** ** How the choice probability depends on the traits *)

Section Sensitivity.

Lemma clamp_monotone (lo hi a a' : Q) :
  a <= a' -> Math.max lo (Math.min hi a) <= Math.max lo (Math.min hi a').
Proof.
  intros Ha.
  destruct (min_cases hi a) as [[? Hm]|[? Hm]], (min_cases hi a') as [[? Hm']|[? Hm']];
    rewrite Hm, Hm';
    match goal with
    | |- Math.max ?l ?x <= Math.max ?l ?y =>
        destruct (max_cases l x) as [[? Hx]|[? Hx]],
                 (max_cases l y) as [[? Hy]|[? Hy]]; rewrite ?Hx, ?Hy; lra
    end.
Qed.

Lemma twentieth_nonneg (w : Q) : 0 <= w -> 0 <= w / 20.
Proof.
  intros H. unfold Qdiv. apply Qmult_le_0_compat; [exact H|discriminate].
Qed.

Lemma alignment_step_difference (pe pe' : PersonalityEngine) (d : Dim)
    (a a' : Q) (k : string) (v : Q) :
  (forall d', d' <> d -> tget d' (ocean pe') = tget d' (ocean pe)) ->
  Personality.alignment_step pe' a' (k, v) - Personality.alignment_step pe a (k, v)
  == a' - a
     + (if String.eqb (dim_key d) k
        then (tget d (ocean pe') - tget d (ocean pe)) * (v / 20)
        else 0).
Proof.
  intros Hsame. unfold Personality.alignment_step. cbn [fst snd].
  destruct (String.eqb_spec (dim_key d) k) as [<-|Hk].
  - rewrite hasOwnProperty_dim_key. cbv zeta.
    destruct (js_gt v 0) eqn:Hv; [field|].
    apply js_gt_false in Hv. unfold Math.abs. rewrite (Qabs_neg v Hv). field.
  - destruct (ocean_hasOwnProperty k) as [d'|] eqn:Hd; [|ring].
    apply hasOwnProperty_Some in Hd.
    rewrite (Hsame d') by congruence.
    cbv zeta. destruct (js_gt v 0); ring.
Qed.

Lemma alignment_fold_difference (pe pe' : PersonalityEngine) (d : Dim)
    (weights : jsobj Q) (a a' : Q) :
  distinct_keys weights ->
  (forall d', d' <> d -> tget d' (ocean pe') = tget d' (ocean pe)) ->
  fold_left (Personality.alignment_step pe') weights a'
  - fold_left (Personality.alignment_step pe) weights a
  == a' - a
     + match prop_get (dim_key d) weights with
       | Some w => (tget d (ocean pe') - tget d (ocean pe)) * (w / 20)
       | None => 0
       end.
Proof.
  intros Hnd Hsame. revert a a'.
  induction weights as [|[k v] ws IH]; intros a a'; cbn [fold_left prop_get]; [ring|].
  inversion Hnd as [|? ? Hnotin Hnd']; subst.
  rewrite (IH Hnd'), (alignment_step_difference pe pe' d a a' k v Hsame).
  destruct (String.eqb_spec (dim_key d) k) as [<-|Hk].
  - apply prop_get_None in Hnotin. rewrite Hnotin. ring.
  - ring.
Qed.

Lemma stress_adjust_difference (pe pe' : PersonalityEngine) (delta : option Q) (a a' : Q) :
  stress pe' = stress pe ->
  Personality.stress_adjust pe' delta a' - Personality.stress_adjust pe delta a == a' - a.
Proof.
  intros Hs. unfold Personality.stress_adjust. rewrite Hs.
  destruct delta as [d|]; [|ring].
  destruct (js_lt d 0); [ring|]. destruct (js_gt d 10); ring.
Qed.

(** X19. As the comments of [calculateChoiceProbability] say, a positive
    weight makes a choice favoured by a high trait and a negative weight by
    a low trait.  For engines whose traits and stress are in range and a
    weight map whose weights are of magnitude at most 1e300 (so that no
    term comes near the overflow of a double, where the sum could be
    [NaN]): between two engines that differ only in one dimension, the one
    with the higher value gives a probability at least as high when the
    weight map gives that dimension a positive weight, at most as high
    when it gives it a negative weight, and the same probability when the
    weight is zero or the map does not name the dimension. *)
Theorem calculateChoiceProbability_sensitivity (choice : Choice) (weights : jsobj Q)
    (d : Dim) (pe pe' : PersonalityEngine) :
  healthy pe -> healthy pe' ->
  moderate_weights weights ->
  ocean_weights choice = Some weights ->
  distinct_keys weights ->
  (forall d', d' <> d -> tget d' (ocean pe') = tget d' (ocean pe)) ->
  stress pe' = stress pe ->
  tget d (ocean pe) <= tget d (ocean pe') ->
  let p := Personality.calculateChoiceProbability choice pe in
  let p' := Personality.calculateChoiceProbability choice pe' in
  match prop_get (dim_key d) weights with
  | Some w => (0 < w -> p <= p') /\ (w < 0 -> p' <= p) /\ (w == 0 -> p' == p)
  | None => p' == p
  end.
Proof.
  intros _ _ _ Hweights Hnd Hsame Hstress Hle p p'. subst p p'.
  unfold Personality.calculateChoiceProbability. rewrite Hweights. cbv zeta.
  set (a := fold_left (Personality.alignment_step pe) weights 50).
  set (a' := fold_left (Personality.alignment_step pe') weights 50).
  pose proof (alignment_fold_difference pe pe' d weights 50 50 Hnd Hsame) as Hfold.
  fold a a' in Hfold.
  pose proof (stress_adjust_difference pe pe' (stress_delta choice) a a' Hstress) as Hadj.
  set (b := Personality.stress_adjust pe (stress_delta choice) a) in *.
  set (b' := Personality.stress_adjust pe' (stress_delta choice) a') in *.
  assert (Hequal : b' == b -> Math.max 10 (Math.min 90 b') == Math.max 10 (Math.min 90 b)).
  { intros Heq. apply Qle_antisym; apply clamp_monotone; lra. }
  destruct (prop_get (dim_key d) weights) as [w|].
  - set (gap := tget d (ocean pe') - tget d (ocean pe)) in *.
    assert (Hgap : 0 <= gap) by (unfold gap; lra).
    split; [|split].
    + intros Hw. apply clamp_monotone.
      assert (0 <= gap * (w / 20))
        by (apply Qmult_le_0_compat; [exact Hgap|apply twentieth_nonneg; lra]).
      lra.
    + intros Hw. apply clamp_monotone.
      assert (0 <= gap * (- w / 20))
        by (apply Qmult_le_0_compat; [exact Hgap|apply twentieth_nonneg; lra]).
      assert (gap * (- w / 20) == - (gap * (w / 20))) by field.
      lra.
    + intros Hw. apply Hequal.
      assert (gap * (w / 20) == 0) by (rewrite Hw; field).
      lra.
  - apply Hequal. lra.
Qed.

(** Two engines that differ in Conscientiousness and a choice that rewards
    it, as an input of X19. *)
Lemma calculateChoiceProbability_sensitivity_witness :
  let choice := mkChoice "study" "Study hard" "Stay in." "You passed."
                  (Some [("C", 15); ("E", -5)]) None None in
  Personality.calculateChoiceProbability choice (with_ocean 50 50 50 50 50)
  <= Personality.calculateChoiceProbability choice (with_ocean 50 70 50 50 50).
Proof.
  intros choice.
  assert (Hhealthy : forall C, 0 <= C <= 100 -> healthy (with_ocean 50 C 50 50 50)).
  { intros C HC. split; [|simpl; lra]. intros d'. destruct d'; simpl; lra. }
  pose proof (calculateChoiceProbability_sensitivity choice [("C", 15); ("E", -5)] DimC
                (with_ocean 50 50 50 50 50) (with_ocean 50 70 50 50 50)) as H.
  apply H; try reflexivity.
  - apply Hhealthy. lra.
  - apply Hhealthy. lra.
  - repeat constructor; discriminate.
  - apply (bool_decide_unpack _). reflexivity.
  - intros d' Hd'. destruct d'; first [reflexivity|contradiction].
  - discriminate.
Defined.




End Sensitivity.

(** ** The effects of a choice, scenario weights and the Enneagram text *)

Section Effects.



Lemma prefix_refl (s : string) : String.prefix s s = true.
Proof.
  induction s as [|c s IH]; simpl; [reflexivity|].
  destruct (ascii_dec c c) as [_|Hne]; [exact IH|contradiction].
Qed.

Lemma includes_refl (s : string) : includes s s = true.
Proof.
  pose proof (prefix_refl s) as H.
  destruct s; simpl in *; [reflexivity|]. now rewrite H.
Qed.

Lemma weight_fold_bounds (dominantTags tags : list string) (start : Q) :
  let boosted tag := existsb (fun t => includes tag t || includes t tag) dominantTags in
  let total :=
    fold_left (fun weight tag => if boosted tag then weight + 0.5 else weight) tags start in
  start <= total
  /\ total <= start + 0.5 * inject_Z (Z.of_nat (length tags))
  /\ (dominantTags = [] -> total = start)
  /\ (forall tag, tag ∈ tags -> tag ∈ dominantTags -> start + 0.5 <= total).
Proof.
  intros boosted total. subst total. revert start.
  induction tags as [|tag tags IH]; intros start.
  - cbn [fold_left length]. change (inject_Z (Z.of_nat 0)) with 0.
    split; [lra|]. split; [lra|]. split; [reflexivity|].
    intros tag Htag. inversion Htag.
  - cbn [fold_left length].
    destruct (IH (if boosted tag then start + 0.5 else start)) as (Hlo & Hhi & Hnone & Hsome).
    rewrite Nat2Z.inj_succ, <- Z.add_1_r, inject_Z_plus.
    change (inject_Z 1) with 1.
    split; [|split; [|split]].
    + destruct (boosted tag); lra.
    + destruct (boosted tag); lra.
    + intros ->. rewrite Hnone by reflexivity. reflexivity.
    + intros t Ht Hdom. apply elem_of_cons in Ht as [->|Ht].
      * assert (Hb : boosted tag = true).
        { unfold boosted. apply existsb_exists. exists tag.
          split; [apply list_elem_of_In, Hdom|]. now rewrite includes_refl. }
        rewrite Hb in Hlo |- *. exact Hlo.
      * specialize (Hsome t Ht Hdom). destruct (boosted tag); lra.
Qed.

(** X22. The weight [selectNextScenario] gives a scenario that has context
    tags is at least 1 and below 1.5 plus half the number of its context
    tags; it is exactly 1 plus half the jitter when there is no dominant
    tag, and at least 1.5 when one of its context tags is a dominant tag.
    For a scenario without context tags the computation raises. *)
Theorem scenario_weight_bounds (dominantTags : list string) (jitter : Q)
    (scenario : Scenario) :
  unit_draw jitter ->
  match context_tags scenario with
  | Some tags =>
      exists weight,
        Events.scenario_weight dominantTags jitter scenario = Normal weight
        /\ 1 <= weight
        /\ weight < 1.5 + 0.5 * inject_Z (Z.of_nat (length tags))
        /\ (dominantTags = [] -> weight = 1 + jitter * 0.5)
        /\ (forall tag, tag ∈ tags -> tag ∈ dominantTags -> 1.5 <= weight)
  | None =>
      exists message, Events.scenario_weight dominantTags jitter scenario = TypeError message
  end.
Proof.
  intros [H0 H1]. unfold Events.scenario_weight.
  destruct (context_tags scenario) as [tags|]; [|eexists; reflexivity].
  eexists. split; [reflexivity|]. cbv zeta.
  destruct (weight_fold_bounds dominantTags tags 1) as (Hlo & Hhi & Hnone & Hsome).
  cbv zeta in Hlo, Hhi, Hnone, Hsome.
  split; [lra|]. split; [lra|]. split.
  - intros Hd. now rewrite (Hnone Hd).
  - intros tag Htag Hdom. specialize (Hsome tag Htag Hdom). lra.
Qed.

(** A scenario tagged "career" when "career" is dominant, as an input of X22. *)
Lemma scenario_weight_bounds_witness :
  let job := mkScenario "job" "A job offer" "An offer arrives." "mid" (Some (26, 50)%Z)
               (Some ["career"; "money"]) [] None in
  unit_draw 0.25
  /\ exists weight,
       Events.scenario_weight ["career"] 0.25 job = Normal weight /\ 1.5 <= weight.
Proof.
  intros job.
  assert (Hdraw : unit_draw 0.25) by (split; [discriminate|reflexivity]).
  split; [exact Hdraw|].
  destruct (scenario_weight_bounds ["career"] 0.25 job Hdraw)
    as (weight & Hweight & _ & _ & _ & Hdominant).
  exists weight. split; [exact Hweight|].
  apply (Hdominant "career"); apply list_elem_of_In; simpl; auto.
Defined.

(** X23. [deriveEnneagram] always returns, with a type from 1 to 9 and the
    description that the table gives for that type: the description is
    never undefined. *)
Theorem deriveEnneagram_description (pe : PersonalityEngine) :
  exists (r : Personality.Enneagram) (text : string),
    Personality.deriveEnneagram pe = Some r
    /\ (1 <= Personality.enneagram_type r <= 9)%Z
    /\ Personality.enneagram_description r = Some text
    /\ In (Personality.enneagram_type r, text) Personality.enneagram_descriptions.
Proof.
  unfold Personality.deriveEnneagram.
  pose proof (Array_sort_perm Personality.by_score_descending
                (Personality.enneagram_scores pe)) as Hperm.
  destruct (Personality.Array_sort _ _) as [|[type score] rest] eqn:Hsort.
  { apply Permutation_nil_l in Hperm. discriminate Hperm. }
  assert (Hin : type ∈ map fst (Personality.enneagram_scores pe)).
  { apply list_elem_of_In, in_map_iff. exists (type, score). split; [reflexivity|].
    apply list_elem_of_In. rewrite <- Hperm. left. }
  rewrite enneagram_scores_keys in Hin.
  rewrite !elem_of_cons in Hin.
  destruct Hin as [->|[->|[->|[->|[->|[->|[->|[->|[->|Hin]]]]]]]]]; [..|inversion Hin];
    (eexists _, _; split; [reflexivity|]; split; [simpl; lia|]; split; [reflexivity|];
     simpl; tauto).
Qed.

End Effects.
